(** * Remirror: the input-rule aggregation extension and the WYSIWYG menu bar

    A shallow embedding of
      - [src/unnamed/part_000]: the extension named ['inputRules'] that
        harvests every extension's [createNodeViews] contribution into a
        single ProseMirror input-rules plugin;
      - [src/@remirror/editor-wysiwyg/src/components/wysiwyg-menu.tsx]: the
        [MenuBar] component and [getButtonState].

    JavaScript values are modelled as they exist at run time: an optional
    property is an [option], a property read on [undefined] throws a
    [TypeError], and [a || b] evaluates [b] only when [a] is falsy. *)

From Stdlib Require Import ZArith.
From stdpp Require Import base option strings list sorting.

(** ** prosemirror-inputrules

    The extension only passes these values through, it never inspects them.
    An input rule is identified by its regular expression and its handler. *)
Module ProseMirror.

Record InputRule := { regexp : string; handler : nat }.

Record InputRulesConfig := { rules : list InputRule }.

Inductive Plugin :=
  | InputRulesPlugin (config : InputRulesConfig)
  | KeyedPlugin (key : string).

(** [inputRules({ rules })] *)
Definition inputRules (config : InputRulesConfig) : Plugin :=
  InputRulesPlugin config.

End ProseMirror.

(** ** Effects of a hook

    A hook may call the manager's [addPlugins] callback and may throw.  A
    computation is the sequence of events it emitted together with the way
    it completed; events emitted before a throw stay emitted. *)
Module Effect.

(** The hooks the manager calls on an extension; [ForEachExtension] with
    the name of the extension it is called on. *)
Inductive HookName :=
  | OnInitialize
  | ForEachExtension (visited : string)
  | AfterExtensionLoop.

(** What can be thrown: JavaScript's [TypeError], and the two errors of
    the manager named in section 7 of the specification. *)
Inductive Error :=
  | TypeError
  | ConfigurationError
  | InitializationError (name : string) (hook : HookName).

(** What a run leaves behind: a call of [addPlugins(...plugins)], and the
    manager's record that it called a hook. *)
Inductive Event :=
  | AddPlugins (plugins : list ProseMirror.Plugin)
  | HookCall (owner : string) (hook : HookName).

Inductive Completion (A : Type) :=
  | Normal (a : A)
  | Throw (e : Error).
Arguments Normal {A} a.
Arguments Throw {A} e.

Record Eff (A : Type) := MkEff { trace : list Event; completion : Completion A }.
Arguments MkEff {A} trace completion.
Arguments trace {A} _.
Arguments completion {A} _.

Definition ret {A} (a : A) : Eff A := MkEff [] (Normal a).

Definition throw {A} (e : Error) : Eff A := MkEff [] (Throw e).

Definition emit (ev : Event) : Eff unit := MkEff [ev] (Normal tt).

Definition bind {A B} (k : A → Eff B) (m : Eff A) : Eff B :=
  match completion m with
  | Normal a => let r := k a in MkEff (trace m ++ trace r) (completion r)
  | Throw e => MkEff (trace m) (Throw e)
  end.

#[global] Instance Eff_ret : MRet Eff := @ret.
#[global] Instance Eff_bind : MBind Eff := @bind.

(** [a || b] used as a condition: [b] is evaluated only when [a] is falsy. *)
Definition or_else (a b : Eff bool) : Eff bool :=
  x ← a; if x : bool then mret true else b.

(** [o.p] where [o] may be [undefined]: reading a property of [undefined]
    throws a [TypeError]. *)
Definition member {A} (o : option A) : Eff A :=
  match o with
  | Some a => mret a
  | None => throw TypeError
  end.

(** Truthiness of a value of type [boolean | undefined]. *)
Definition truthy (v : option bool) : bool := default false v.

(** The plugins registered by a trace, in registration order. *)
Definition registered (t : list Event) : list ProseMirror.Plugin :=
  flat_map (λ ev, match ev with AddPlugins ps => ps | HookCall _ _ => [] end) t.

(** The [addPlugins] calls of a trace, each with its argument list. *)
Definition addPluginsCalls (t : list Event) : list (list ProseMirror.Plugin) :=
  omap (λ ev, match ev with AddPlugins ps => Some ps | HookCall _ _ => None end) t.

End Effect.

Infix "|||" := Effect.or_else (at level 50, left associativity).

(** ** Extensions ([../extension], [../types]) *)
Module Core.
Import ProseMirror Effect.

(** [Remirror.ExcludeOptions]: [inputRules?: boolean]. *)
Record ExcludeOptions := { inputRules : option bool }.

(** [managerSettings]: [exclude] is optional. *)
Module ManagerSettings.
Record t := mk { exclude : option ExcludeOptions }.
End ManagerSettings.

(** [extension.settings] as it is at run time.  The handler reads
    [settings.exclude] without a guard; [None] is the settings object that
    lacks the property. *)
Module ExtensionSettings.
Record t := mk { exclude : option ExcludeOptions }.
End ExtensionSettings.

(** The parameter object [getParameter(extension)] returns; the aggregator
    hands it to [createNodeViews] untouched.  [type] is the node or mark
    type of a node or mark extension, absent for a plain one. *)
Record ManagerTypeParameter := { type : option string }.

(** What an extension is as a value: the part that a [createNodeViews]
    method can read from its second argument. *)
Record ExtensionData := {
  name : string;
  priority : Z;
  settings : ExtensionSettings.t;
}.

(** [Remirror.ExtensionCreatorMethods]: [createNodeViews] is optional and
    receives the parameter object and the extension it belongs to. *)
Record ExtensionCreatorMethods := {
  createNodeViews :
    option (ManagerTypeParameter → ExtensionData → list InputRule);
}.

(** An extension as [forEachExtension] receives it: [extension.settings] and
    [extension.parameter], the object of creator methods the extension was
    made from. *)
Record Extension := {
  self :> ExtensionData;
  parameter : ExtensionCreatorMethods;
}.

(** The argument of [onInitialize], destructured in the source as
    [{ getParameter, addPlugins, managerSettings }]. *)
Record InitializeParameter := {
  getParameter : Extension → ManagerTypeParameter;
  addPlugins : list Plugin → Eff unit;
  managerSettings : ManagerSettings.t;
}.

(** What [onInitialize] returns: two optional handlers sharing the local
    variables of the call that made them ([closure], with [initial] their
    values when [onInitialize] returns). *)
Record Handlers := {
  closure : Type;
  initial : closure;
  forEachExtension : option (closure → Extension → Eff closure);
  afterExtensionLoop : option (closure → Eff unit);
}.

(** An extension as it is registered with a manager.  [onInitialize] is one
    more creator method; it is kept apart from [parameter] because its
    handlers receive extensions. *)
Record RegisteredExtension := {
  extension :> Extension;
  onInitialize : option (InitializeParameter → Handlers);
}.

End Core.

(** ** [src/unnamed/part_000]: the ['inputRules'] extension *)
Module NodeViews.
Import ProseMirror Effect Core.

(** The variables the two handlers returned by [onInitialize] close over:
    the destructured parameter and the local array [rules].  Each call of
    [onInitialize] makes a closure of its own. *)
Record Closure := {
  initializeParameter : InitializeParameter;
  rules : list InputRule;
}.

(** [rules.push(...items)] *)
Definition push (c : Closure) (items : list InputRule) : Closure :=
  {| initializeParameter := initializeParameter c; rules := rules c ++ items |}.

(** [onInitialize: ({ getParameter, addPlugins, managerSettings }) => {
      const rules: InputRule[] = []; return { ... } }] *)
Definition onInitialize (p : InitializeParameter) : Closure :=
  {| initializeParameter := p; rules := [] |}.

(** The condition of the [if] at lines 29-36, its three operands in source
    order. *)
Definition skipCondition (c : Closure) (extension : Extension) : Eff bool :=
  (* managerSettings.exclude?.inputRules *)
  mret (truthy
    (ManagerSettings.exclude (managerSettings (initializeParameter c))
       ≫= inputRules))
  (* !extension.parameter.createNodeViews *)
  ||| mret (negb (bool_decide (is_Some (createNodeViews (parameter extension)))))
  (* extension.settings.exclude.inputRules *)
  ||| (exclude ← member (ExtensionSettings.exclude (settings extension));
       mret (truthy (inputRules exclude))).

(** [forEachExtension: (extension) => { if (...) { return; }
      const parameter = getParameter(extension);
      rules.push(...extension.parameter.createNodeViews(parameter, extension)); }] *)
Definition forEachExtension (c : Closure) (extension : Extension) : Eff Closure :=
  skip ← skipCondition c extension;
  if skip : bool then mret c
  else
    let parameter' := getParameter (initializeParameter c) extension in
    (* calling [undefined] throws a TypeError as well *)
    f ← member (createNodeViews (parameter extension));
    mret (push c (f parameter' (self extension))).

(** [afterExtensionLoop: () => { addPlugins(inputRules({ rules })); }] *)
Definition afterExtensionLoop (c : Closure) : Eff unit :=
  addPlugins (initializeParameter c)
    [ProseMirror.inputRules {| ProseMirror.rules := rules c |}].

(** The object [onInitialize] returns. *)
Definition handlers (p : InitializeParameter) : Handlers :=
  {| closure := Closure;
     initial := onInitialize p;
     Core.forEachExtension := Some forEachExtension;
     Core.afterExtensionLoop := Some afterExtensionLoop |}.

(** [ExtensionFactory.plain({ name: 'inputRules',
      defaultPriority: ExtensionPriority.Low, onInitialize })].
    The enum [ExtensionPriority] and the settings an instance ends up with
    are declared outside the sources, so the value of [Low] and the settings
    are arguments. *)
Definition NodeViewsExtension (Low : Z) (settings : ExtensionSettings.t)
    : RegisteredExtension :=
  {| extension :=
       {| self := {| name := "inputRules"; priority := Low; settings := settings |};
          parameter := {| createNodeViews := None |} |};
     Core.onInitialize := Some handlers |}.

(** Modelled from the spec: the loop that drives the two handlers is the
    manager's and is not among the sources.  Following section 4.2,
    [forEachExtension] is invoked once per visited extension, in order, and
    [afterExtensionLoop] once after all extensions have been visited. *)
Fixpoint visit (c : Closure) (extensions : list Extension) : Eff Closure :=
  match extensions with
  | [] => mret c
  | extension :: rest => c' ← forEachExtension c extension; visit c' rest
  end.

(** Modelled from the spec: a whole run of the aggregator as the manager
    (missing from the sources) drives it: [onInitialize], the loop, then
    [afterExtensionLoop]. *)
Definition initialize (p : InitializeParameter) (extensions : list Extension)
    : Eff unit :=
  c ← visit (onInitialize p) extensions; afterExtensionLoop c.

(** The rule sequence the loop of a run ends with, or its throw. *)
Definition ruleSequence (p : InitializeParameter) (extensions : list Extension)
    : Completion (list InputRule) :=
  match completion (visit (onInitialize p) extensions) with
  | Normal c => Normal (rules c)
  | Throw e => Throw e
  end.

End NodeViews.

(** ** The manager (sections 3, 4.2 and 7 of the specification) *)
Module Manager.
Import ProseMirror Effect Core.

(** Modelled from the spec: the key of the Manager's duplicate check
    (missing from the sources), the extension's [name]. *)
Definition nameOf (r : RegisteredExtension) : string := name r.

(** Modelled from the spec: the Manager class is not among the sources.
    Section 4.2: the manager "computes a stable sort order by (priority
    ascending, registration index ascending)".  [indexed] pairs every
    extension with its registration index. *)
Definition indexed (extensions : list RegisteredExtension)
    : list (nat * RegisteredExtension) :=
  imap pair extensions.

(** Modelled from the spec: the sort key of the Manager's ordering (missing
    from the sources), priority first, registration index second. *)
Definition precedes (a b : nat * RegisteredExtension) : Prop :=
  (priority a.2 < priority b.2)%Z ∨ (priority a.2 = priority b.2 ∧ a.1 ≤ b.1).

(** Modelled from the spec: the comparison the sort runs on [precedes]. *)
#[global] Instance precedes_dec a b : Decision (precedes a b).
Proof. unfold precedes. apply _. Defined.

(** Modelled from the spec: the Manager's sort (missing from the sources),
    by [precedes]. *)
Definition sortExtensions (extensions : list RegisteredExtension)
    : list RegisteredExtension :=
  (merge_sort precedes (indexed extensions)).*2.

(** Modelled from the spec: how the Manager (missing from the sources)
    invokes a hook.  The call is recorded; section 4.2: when the hook throws
    "the Manager surfaces the originating extension's name and the failing
    hook name in the error". *)
Definition callHook {A} (owner : string) (hook : HookName) (body : Eff A) : Eff A :=
  _ ← emit (HookCall owner hook);
  MkEff (trace body)
    match completion body with
    | Normal a => Normal a
    | Throw _ => Throw (InitializationError owner hook)
    end.

(** Modelled from the spec: the Manager's harvest loop (missing from the
    sources); [forEachExtension] is "invoked once per other registered
    extension (including itself)". *)
Fixpoint harvest (owner : string) (h : Handlers) (c : closure h)
    (visited : list Extension) : Eff (closure h) :=
  match visited with
  | [] => mret c
  | e :: rest =>
      match forEachExtension h with
      | None => mret c
      | Some f =>
          c' ← callHook owner (ForEachExtension (name e)) (f c e);
          harvest owner h c' rest
      end
  end.

(** Modelled from the spec: one extension's turn in the Manager's
    initialization pass (missing from the sources): [onInitialize], its
    nested harvest loop, then [afterExtensionLoop], "invoked once after all
    extensions have been visited". *)
Definition initializeExtension (p : InitializeParameter)
    (visited : list Extension) (r : RegisteredExtension) : Eff unit :=
  match onInitialize r with
  | None => mret tt
  | Some init =>
      _ ← emit (HookCall (name r) OnInitialize);
      let h := init p in
      c ← harvest (name r) h (initial h) visited;
      match afterExtensionLoop h with
      | None => mret tt
      | Some after => callHook (name r) AfterExtensionLoop (after c)
      end
  end.

(** Modelled from the spec: the plan of the Manager's initialization pass
    (missing from the sources): "for each extension in sorted order", and
    for each of them "order of harvesting matches the sorted extension
    order". *)
Definition schedule (sorted : list RegisteredExtension)
    : list (RegisteredExtension * list Extension) :=
  (λ r, (r, extension <$> sorted)) <$> sorted.

(** Modelled from the spec: the Manager's initialization pass (missing from
    the sources) carries the plan out; a throw aborts what is left of it. *)
Fixpoint runAll (p : InitializeParameter)
    (plan : list (RegisteredExtension * list Extension)) : Eff unit :=
  match plan with
  | [] => mret tt
  | (r, visited) :: rest => _ ← initializeExtension p visited r; runAll p rest
  end.

(** Modelled from the spec: the [addPlugins] callback the Manager (missing
    from the sources) passes to [onInitialize]; it "appends to the shared
    ordered plugin list". *)
Definition addPlugins (plugins : list Plugin) : Eff unit :=
  emit (AddPlugins plugins).

(** Modelled from the spec: a Manager (missing from the sources) in its
    Ready state: the extensions in sorted order and the frozen plugin
    list. *)
Record Manager := { extensions : list RegisteredExtension; plugins : list Plugin }.

(** Modelled from the spec: the parameter object the Manager (missing from
    the sources) passes to [onInitialize]; [getParameter] is the Manager's
    accessor of per-extension parameter objects. *)
Definition initializeParameter (settings : ManagerSettings.t)
    (getParameter : Extension → ManagerTypeParameter) : InitializeParameter :=
  {| Core.getParameter := getParameter;
     Core.addPlugins := addPlugins;
     managerSettings := settings |}.

(** Modelled from the spec: the Manager's construction (missing from the
    sources).  It "validates no duplicate names", failing with a
    [ConfigurationError], sorts, and runs the initialization pass. *)
Definition create (settings : ManagerSettings.t)
    (getParameter : Extension → ManagerTypeParameter)
    (extensions : list RegisteredExtension) : Eff Manager :=
  if decide (NoDup (nameOf <$> extensions)) then
    let sorted := sortExtensions extensions in
    let p := initializeParameter settings getParameter in
    let run := runAll p (schedule sorted) in
    _ ← run;
    mret {| extensions := sorted; plugins := registered (trace run) |}
  else throw ConfigurationError.

End Manager.

(** ** [wysiwyg-menu.tsx]: the menu bar *)
Module WysiwygMenu.

(** The icon components imported from [@remirror/ui-icons]. *)
Inductive IconComponent :=
  | BoldIcon | CodeIcon | H1Icon | H2Icon | H3Icon | ItalicIcon | LinkIcon
  | ListOlIcon | ListUlIcon | QuoteRightIcon | RedoAltIcon
  | RulerHorizontalIcon | StrikethroughIcon | TimesIcon | UnderlineIcon
  | UndoAltIcon.

(** [ActionNames<WysiwygExtensions>]: the keys of [actions] this file uses. *)
Inductive ActionName :=
  | bold | italic | underline | strike | toggleHeading | undo | redo
  | toggleBulletList | toggleOrderedList | blockquote | toggleCodeBlock
  | horizontalRule | updateLink | removeLink.

(** [Attrs], as in [{ level: 1 }]. *)
Definition Attrs := list (string * Z).

(** [ButtonState]: ['default'], ['inverse'], ['active-default'],
    ['active-inverse']. *)
Inductive ButtonState := default_ | inverse_ | active_default | active_inverse.

(** An entry of [actions]: a command with its two predicates. *)
Record Action := {
  isActive : option Attrs → bool;
  isEnabled : unit → bool;
}.

Definition Actions := ActionName → Action.

(** What a click does. *)
Inductive ClickHandler :=
  | runAction (method : ActionName) (attrs : option Attrs)
  | activateLink.

Inductive Padding := right_ | horizontal.

Definition menuItems
    : list (ActionName * (IconComponent * option string) * option Attrs) :=
  [ (bold, (BoldIcon, None), None);
    (italic, (ItalicIcon, None), None);
    (underline, (UnderlineIcon, None), None);
    (strike, (StrikethroughIcon, None), None);
    (toggleHeading, (H1Icon, Some "1"), Some [("level", 1%Z)]);
    (toggleHeading, (H2Icon, Some "2"), Some [("level", 2%Z)]);
    (toggleHeading, (H3Icon, Some "3"), Some [("level", 3%Z)]);
    (undo, (UndoAltIcon, None), None);
    (redo, (RedoAltIcon, None), None);
    (toggleBulletList, (ListUlIcon, None), None);
    (toggleOrderedList, (ListOlIcon, None), None);
    (blockquote, (QuoteRightIcon, None), None);
    (toggleCodeBlock, (CodeIcon, None), None);
    (horizontalRule, (RulerHorizontalIcon, None), None) ].

(** [getButtonState = (active: boolean, inverse = false): ButtonState =>
      active ? (inverse ? 'active-inverse' : 'active-default')
             : inverse ? 'inverse' : 'default'].
    An [undefined] second argument takes the default [false]. *)
Definition getButtonState (active : bool) (inverse : option bool) : ButtonState :=
  let inverse := default false inverse in
  if active then (if inverse then active_inverse else active_default)
  else if inverse then inverse_ else default_.

(** [MenuItemProps] *)
Record MenuItemProps := {
  state : ButtonState;
  onClick : ClickHandler;
  Icon : IconComponent;
  inverse : option bool;
  disabled : option bool;
  subText : option string;
  index : option nat;
  withPadding : option Padding;
}.

(** The [IconButton] element a [MenuItem] renders, with its [Icon] child. *)
Record IconButton := {
  button_onClick : ClickHandler;
  button_state : ButtonState;
  button_disabled : bool;
  button_withPadding : option Padding;
  button_index : option nat;
  icon : IconComponent;
  icon_inverse : bool;
}.

(** [MenuItem]: [inverse] and [disabled] default to [false]; [subText] is
    not used. *)
Definition MenuItem (props : MenuItemProps) : IconButton :=
  {| button_onClick := onClick props;
     button_state := state props;
     button_disabled := default false (disabled props);
     button_withPadding := withPadding props;
     button_index := index props;
     icon := Icon props;
     icon_inverse := default false (inverse props) |}.

(** [MenuBar]: the [MenuItem] elements inside the [Toolbar], one per entry
    of [menuItems] followed by the link item.  [actions] is what
    [useRemirror] returns. *)
Definition MenuBar (actions : Actions) (inverse : option bool) : list MenuItemProps :=
  imap (λ index '(name, (Icon, subText), attrs),
          let buttonState := getButtonState (isActive (actions name) attrs) inverse in
          {| index := Some index;
             Icon := Icon;
             subText := subText;
             state := buttonState;
             disabled := Some (negb (isEnabled (actions name) ()));
             onClick := runAction name attrs;
             withPadding := Some right_;
             WysiwygMenu.inverse := None |})
       menuItems
  ++ [ {| Icon := LinkIcon;
          state := getButtonState (isActive (actions updateLink) None) inverse;
          disabled := Some (negb (isEnabled (actions updateLink) ()));
          onClick := activateLink;
          withPadding := Some right_;
          WysiwygMenu.inverse := None; subText := None; index := None |} ].

End WysiwygMenu.

(** ** The skip rule in the words of the specification *)
Module Rule.
Import ProseMirror Effect Core.

(** (a) the manager-wide exclude map disables [inputRules]. *)
Definition managerExcludes (p : InitializeParameter) : Prop :=
  ManagerSettings.exclude (managerSettings p) ≫= inputRules = Some true.

(** (b) the extension does not implement [createNodeViews]. *)
Definition lacksHook (extension : Extension) : Prop :=
  createNodeViews (parameter extension) = None.

(** (c) the extension's [settings.exclude.inputRules] is [true]. *)
Definition excludesItself (extension : Extension) : Prop :=
  ExtensionSettings.exclude (settings extension) ≫= inputRules = Some true.

#[global] Instance managerExcludes_dec p : Decision (managerExcludes p).
Proof. unfold managerExcludes. apply _. Defined.
#[global] Instance lacksHook_dec e : Decision (lacksHook e).
Proof.
  unfold lacksHook. destruct (createNodeViews (parameter e));
    [right; discriminate | left; reflexivity].
Defined.
#[global] Instance excludesItself_dec e : Decision (excludesItself e).
Proof. unfold excludesItself. apply _. Defined.

Definition skipped (p : InitializeParameter) (extension : Extension) : Prop :=
  managerExcludes p ∨ lacksHook extension ∨ excludesItself extension.

(** The extension's settings carry an [exclude] object. *)
Definition hasExclude (extension : Extension) : Prop :=
  is_Some (ExtensionSettings.exclude (settings extension)).

(** A list of extensions is in the order of section 4.2: priority
    ascending, ties broken by the index in the registration list. *)
Definition inPriorityOrder (registered l : list RegisteredExtension) : Prop :=
  ∀ (i j : nat) (a b : RegisteredExtension) (ia ib : nat),
    i < j → l !! i = Some a → l !! j = Some b →
    registered !! ia = Some a → registered !! ib = Some b →
    (priority a < priority b)%Z ∨ (priority a = priority b ∧ ia < ib).

(** What a visited extension contributes: nothing when skipped, otherwise
    what its [createNodeViews] returns. *)
Definition contribution (p : InitializeParameter) (extension : Extension)
    : list InputRule :=
  if decide (skipped p extension) then []
  else match createNodeViews (parameter extension) with
       | Some f => f (getParameter p extension) (self extension)
       | None => []
       end.

(** The concatenation of the contributions in visit order. *)
Definition harvested (p : InitializeParameter) (extensions : list Extension)
    : list InputRule :=
  flat_map (contribution p) extensions.

(** The skip check throws on an extension. *)
Definition faults (p : InitializeParameter) (extension : Extension) : Prop :=
  ¬ managerExcludes p ∧ ¬ lacksHook extension ∧ ¬ hasExclude extension.

(** The extensions a requesting extension was handed, by name and in
    order, as the manager's record of its [forEachExtension] calls shows
    them. *)
Definition visitsOf (owner : string) (t : list Event) : list string :=
  omap (λ ev,
          match ev with
          | HookCall o (ForEachExtension visited) =>
              if decide (o = owner) then Some visited else None
          | _ => None
          end) t.

(** What a hook itself can leave in the trace are [addPlugins] calls; the
    record of the hook calls is the manager's. *)
Definition quiet (t : list Event) : Prop :=
  Forall (λ ev, match ev with AddPlugins _ => True | HookCall _ _ => False end) t.

(** The handlers of an extension leave nothing but [addPlugins] calls in
    the trace, on every closure they can reach from the one [onInitialize]
    returned. *)
Definition wellBehaved (p : InitializeParameter) (r : RegisteredExtension)
    : Prop :=
  ∀ init, onInitialize r = Some init →
    ∃ reachable : closure (init p) → Prop,
      reachable (initial (init p))
      ∧ (∀ f c e,
           forEachExtension (init p) = Some f → reachable c →
           quiet (trace (f c e))
           ∧ ∀ c', completion (f c e) = Normal c' → reachable c')
      ∧ (∀ g c,
           afterExtensionLoop (init p) = Some g → reachable c →
           quiet (trace (g c))).

End Rule.

(** ** The handlers over time

    The aggregator is stateful: the handlers of one [onInitialize] call
    share the array [rules], and a later [onInitialize] call makes new
    handlers with an array of their own. *)
Module Session.
Import ProseMirror Effect Core NodeViews.

(** What the manager can call on the aggregator. *)
Inductive Call :=
  | callOnInitialize (p : InitializeParameter)
  | callForEachExtension (extension : Extension)
  | callAfterExtensionLoop.

(** Modelled from the spec: the manager (missing from the sources) keeps
    the handlers the last [onInitialize] call returned, here their closure,
    and calls them; before any [onInitialize] call there is no handler to
    call. *)
Definition step (handlers : option Closure) (call : Call)
    : Eff (option Closure) :=
  match call, handlers with
  | callOnInitialize p, _ => mret (Some (onInitialize p))
  | callForEachExtension extension, Some c =>
      c' ← forEachExtension c extension; mret (Some c')
  | callAfterExtensionLoop, Some c =>
      _ ← afterExtensionLoop c; mret (Some c)
  | _, None => mret None
  end.

(** Modelled from the spec: a sequence of such calls, in order; a throw
    ends it. *)
Fixpoint run (handlers : option Closure) (calls : list Call)
    : Eff (option Closure) :=
  match calls with
  | [] => mret handlers
  | call :: rest => handlers' ← step handlers call; run handlers' rest
  end.

(** Modelled from the spec: the calls of the loop followed by
    [afterExtensionLoop] (section 4.2). *)
Definition loopAndFlush (extensions : list Extension) : list Call :=
  (callForEachExtension <$> extensions) ++ [callAfterExtensionLoop].

(** Modelled from the spec: the calls of one initialization of the
    aggregator by a manager: [onInitialize], then the loop and
    [afterExtensionLoop]. *)
Definition initialization (p : InitializeParameter)
    (extensions : list Extension) : list Call :=
  callOnInitialize p :: loopAndFlush extensions.

End Session.

(** ** Sample extensions

    Concrete extensions on which the statements below are exercised.  The
    priorities are sample values: lower runs first. *)
Module Sample.
Import ProseMirror Effect Core.

Definition Default : Z := 3.
Definition Low : Z := 4.

Definition typeParameter (extension : Extension) : ManagerTypeParameter :=
  {| type := Some (name extension) |}.

(** Agrees with [typeParameter] on ["bold"] and ["heading"] only. *)
Definition plainParameter (extension : Extension) : ManagerTypeParameter :=
  if decide (name extension = "bold" ∨ name extension = "heading")
  then {| type := Some (name extension) |}
  else {| type := None |}.

Definition noExcludes : ExtensionSettings.t :=
  ExtensionSettings.mk (Some {| inputRules := None |}).

Definition boldRules : list InputRule :=
  [ {| regexp := "\*\*(\S+)\*\*$"; handler := 0 |};
    {| regexp := "__(\S+)__$"; handler := 0 |} ].

Definition headingRules : list InputRule :=
  [ {| regexp := "^#\s$"; handler := 1 |};
    {| regexp := "^##\s$"; handler := 2 |};
    {| regexp := "^###\s$"; handler := 3 |} ].

Definition Bold : RegisteredExtension :=
  {| extension :=
       {| self := {| name := "bold"; priority := Default; settings := noExcludes |};
          parameter := {| createNodeViews := Some (λ _ _, boldRules) |} |};
     onInitialize := None |}.

Definition Heading : RegisteredExtension :=
  {| extension :=
       {| self := {| name := "heading"; priority := Default; settings := noExcludes |};
          parameter := {| createNodeViews := Some (λ _ _, headingRules) |} |};
     onInitialize := None |}.

(** An extension whose settings carry no [exclude] object. *)
Definition Bare : RegisteredExtension :=
  {| extension :=
       {| self := {| name := "bare"; priority := Default;
                     settings := ExtensionSettings.mk None |};
          parameter := {| createNodeViews := Some (λ _ _, boldRules) |} |};
     onInitialize := None |}.

Definition noManagerExcludes : ManagerSettings.t := ManagerSettings.mk None.

Definition excludeInputRules : ManagerSettings.t :=
  ManagerSettings.mk (Some {| inputRules := Some true |}).

End Sample.

(** ** [wysiwyg-menu.tsx]: click handlers, the bubble menu, the link input *)
Module WysiwygBubble.
Import WysiwygMenu.

(** What an action is called with: [method(attrs)] with [attrs] possibly
    [undefined], [actions.updateLink({ href })], [actions.removeLink()]. *)
Inductive CallArgument :=
  | attrsArgument (attrs : option Attrs)
  | hrefArgument (href : string)
  | noArgument.

(** What a handler does, in order: [e.preventDefault()], a call of an
    action, a call of the [activateLink] or [deactivateLink] prop. *)
Inductive UiEffect :=
  | preventDefault
  | callAction (method : ActionName) (argument : CallArgument)
  | callActivateLink
  | callDeactivateLink.

(** A click on an element whose [onClick] is [handler].
    [runAction] is [memoize((method, attrs) => e => { e.preventDefault();
    method(attrs); })], and [memoize] of [@remirror/core] is not among the
    sources: [cached method attrs] stands for the arguments of the call
    whose handler the memoized factory returns for [runAction(method,
    attrs)].  The [activateLink] prop is called as it is. *)
Definition click (cached : ActionName → option Attrs → ActionName * option Attrs)
    (handler : ClickHandler) : list UiEffect :=
  match handler with
  | runAction method attrs =>
      let '(method', attrs') := cached method attrs in
      [preventDefault; callAction method' (attrsArgument attrs')]
  | activateLink => [callActivateLink]
  end.

Definition bubbleMenuItems
    : list (ActionName * (IconComponent * option string) * option Attrs) :=
  [ (bold, (BoldIcon, None), None);
    (italic, (ItalicIcon, None), None);
    (underline, (UnderlineIcon, None), None) ].

(** [LinkInputProps]: the four callbacks, each as what calling it does. *)
Record LinkInputProps := {
  deactivateLink : list UiEffect;
  updateLink : string → list UiEffect;
  removeLink : list UiEffect;
  canRemove : unit → bool;
}.

(** The state of a [LinkInput]: [const [href, setHref] = useState('')]. *)
Record LinkInputState := { href : string }.

Definition initialState : LinkInputState := {| href := "" |}.

(** The [MenuItem] a [LinkInput] renders when [canRemove()] holds; its
    [onClick] is [onClickRemoveLink]. *)
Record RemoveItem := {
  remove_Icon : IconComponent;
  remove_state : ButtonState;
  remove_inverse : bool;
  remove_withPadding : Padding;
}.

(** What a [LinkInput] renders inside its [BubbleContent]: the input and,
    possibly, the remove item. *)
Record LinkInputView := {
  placeholder : string;
  autoFocus : bool;
  removeItem : option RemoveItem;
}.

(** The events a mounted [LinkInput] listens to: [onChange], [onKeyPress]
    and [onSubmit] of the input, a click on the remove item, and
    [mousedown] on the document. *)
Inductive LinkInputEvent {NativeEvent Node : Type} :=
  | change (value : string)
  | keyPress (nativeEvent : NativeEvent)
  | submit
  | clickRemove
  | mouseDown (target : Node).
Arguments LinkInputEvent : clear implicits.

Section LinkInput.
(** [keycode]'s [isEventKey] and the DOM's [Node.contains] are taken as
    they are. *)
Context {NativeEvent Node : Type}.
Context (isEventKey : NativeEvent → string → bool).
Context (contains : Node → Node → bool).
Context (props : LinkInputProps).

(** [onChange = event => { setHref(event.target.value); }] *)
Definition onChange (value : string) (s : LinkInputState) : LinkInputState :=
  {| href := value |}.

(** [submitLink = () => { updateLink(href); deactivateLink(); }] *)
Definition submitLink (s : LinkInputState) : list UiEffect :=
  updateLink props (href s) ++ deactivateLink props.

(** [onKeyPress]: the two [if]s one after the other. *)
Definition onKeyPress (nativeEvent : NativeEvent) (s : LinkInputState)
    : list UiEffect :=
  (if isEventKey nativeEvent "esc"
   then preventDefault :: deactivateLink props else [])
  ++ (if isEventKey nativeEvent "enter"
      then preventDefault :: submitLink s else []).

(** [onClickRemoveLink = event => { event.preventDefault(); removeLink();
      deactivateLink(); }] *)
Definition onClickRemoveLink : list UiEffect :=
  preventDefault :: removeLink props ++ deactivateLink props.

(** [handleClick]: [current] is [wrapperRef.current], [null] until the
    wrapper is mounted. *)
Definition handleClick (current : option Node) (target : Node)
    : list UiEffect :=
  match current with
  | None => []
  | Some wrapper =>
      if contains wrapper target then [] else deactivateLink props
  end.

(** The [return] of [LinkInput]: the input (its [onChange], [onSubmit] and
    [onKeyPress] are the handlers above) and
    [{canRemove() && <MenuItem Icon={TimesIcon} state='active-inverse'
      onClick={onClickRemoveLink} inverse={true} withPadding='horizontal' />}]. *)
Definition LinkInput : LinkInputView :=
  {| placeholder := "Enter URL...";
     autoFocus := true;
     removeItem :=
       if canRemove props ()
       then Some {| remove_Icon := TimesIcon;
                    remove_state := active_inverse;
                    remove_inverse := true;
                    remove_withPadding := horizontal |}
       else None |}.

(** An event reaching the handler registered for it; a click on the remove
    item needs the item to be rendered. *)
Definition dispatch (current : option Node)
    (event : LinkInputEvent NativeEvent Node) (s : LinkInputState)
    : LinkInputState * list UiEffect :=
  match event with
  | change value => (onChange value s, [])
  | keyPress nativeEvent => (s, onKeyPress nativeEvent s)
  | submit => (s, submitLink s)
  | clickRemove =>
      (s, if removeItem LinkInput is Some _ then onClickRemoveLink else [])
  | mouseDown target => (s, handleClick current target)
  end.

(** A sequence of events, one after the other, each handler seeing the
    state the earlier ones left. *)
Fixpoint dispatchAll (current : option Node)
    (events : list (LinkInputEvent NativeEvent Node)) (s : LinkInputState)
    : LinkInputState * list UiEffect :=
  match events with
  | [] => (s, [])
  | event :: rest =>
      let '(s', effects) := dispatch current event s in
      let '(s'', effects') := dispatchAll current rest s' in
      (s'', effects ++ effects')
  end.

End LinkInput.

(** What the input holds after a sequence of events that started with the
    input holding [start]: the value of the last [change], if any. *)
Definition typed {NativeEvent Node : Type} (start : string)
    (events : list (LinkInputEvent NativeEvent Node)) : string :=
  foldl (λ value event,
           match event with change value' => value' | _ => value end)
        start events.

(** A positioner: [isActive], [positionerId], and whatever else
    [bubblePositioner] holds. *)
Module Positioner.
Record t {Params Rest : Type} := mk {
  rest : Rest;
  isActive : Params → bool;
  positionerId : option string;
}.
Arguments t : clear implicits.
End Positioner.

Section BubbleMenu.
Context {Params Rest Number Ref : Type}.
(** [bottom + 5] on numbers: the addition and the literal. *)
Context (add : Number → Number → Number) (five : Number).

(** What [getPositionerProps] returns, as far as it is destructured. *)
Record PositionerProps := { bottom : Number; left : Number; ref : Ref }.

(** What [useRemirror] returns, as far as it is destructured. *)
Record Remirror := {
  actions : Actions;
  getPositionerProps : Positioner.t Params Rest → PositionerProps;
}.

Inductive BubbleChild :=
  | linkInput (props : LinkInputProps)
  | bubbleContent (items : list MenuItemProps).

Record BubbleMenuTooltip := {
  tooltip_ref : Ref;
  tooltip_bottom : Number;
  tooltip_left : Number;
  child : BubbleChild;
}.

(** The positioner [BubbleMenu] hands to [getPositionerProps]:
    [{ ...bubblePositioner,
       isActive: params => (bubblePositioner.isActive(params) || linkActivated)
                           && !actions.toggleCodeBlock.isActive(),
       positionerId: 'bubbleMenu' }]. *)
Definition bubbleMenuPositioner (actions : Actions)
    (bubblePositioner : Positioner.t Params Rest) (linkActivated : bool)
    : Positioner.t Params Rest :=
  {| Positioner.rest := Positioner.rest bubblePositioner;
     Positioner.isActive := λ params,
       (Positioner.isActive bubblePositioner params || linkActivated)
       && negb (WysiwygMenu.isActive (actions toggleCodeBlock) None);
     Positioner.positionerId := Some "bubbleMenu" |}.

(** [BubbleMenu]; [linkActivated] defaults to [false], and the
    [deactivateLink] and [activateLink] props are the parent's. *)
Definition BubbleMenu (remirror : Remirror)
    (bubblePositioner : Positioner.t Params Rest)
    (linkActivated : option bool) : BubbleMenuTooltip :=
  let linkActivated := default false linkActivated in
  let actions := actions remirror in
  let positioned :=
    getPositionerProps remirror
      (bubbleMenuPositioner actions bubblePositioner linkActivated) in
  {| tooltip_ref := ref positioned;
     tooltip_bottom := add (bottom positioned) five;
     tooltip_left := left positioned;
     child :=
       if linkActivated then
         linkInput
           {| deactivateLink := [callDeactivateLink];
              updateLink := λ href,
                [callAction WysiwygMenu.updateLink (hrefArgument href)];
              removeLink := [callAction WysiwygMenu.removeLink noArgument];
              canRemove := λ _,
                WysiwygMenu.isActive (actions WysiwygMenu.removeLink) None |}
       else
         bubbleContent
           (imap (λ index '(name, (Icon, subText), attrs),
                    let buttonState :=
                      getButtonState
                        (WysiwygMenu.isActive (actions name) attrs) (Some true) in
                    {| Icon := Icon;
                       subText := subText;
                       state := buttonState;
                       disabled := Some (negb (isEnabled (actions name) ()));
                       onClick := runAction name attrs;
                       inverse := Some true;
                       withPadding := Some horizontal;
                       index := None |})
                 bubbleMenuItems
            ++ [ {| Icon := LinkIcon;
                    state :=
                      getButtonState
                        (WysiwygMenu.isActive (actions WysiwygMenu.updateLink) None)
                        (Some true);
                    onClick := activateLink;
                    inverse := Some true;
                    withPadding := Some horizontal;
                    disabled := None; subText := None; index := None |} ]) |}.

End BubbleMenu.

End WysiwygBubble.

(** ** Sample editor state for the menus *)
Module SampleMenu.
Import WysiwygMenu WysiwygBubble.

#[global] Instance ActionName_eq_dec : EqDecision ActionName.
Proof. solve_decision. Defined.

(** Bold is active; every action but [updateLink] is enabled. *)
Definition actions : Actions :=
  λ name,
    {| isActive := λ _, bool_decide (name = bold);
       isEnabled := λ _, negb (bool_decide (name = WysiwygMenu.updateLink)) |}.

Definition remirror : @Remirror unit unit Z unit :=
  {| WysiwygBubble.actions := actions;
     getPositionerProps := λ _, {| bottom := 10%Z; left := 20%Z; ref := () |} |}.

Definition bubblePositioner : Positioner.t unit unit :=
  {| Positioner.rest := ();
     Positioner.isActive := λ _, false;
     Positioner.positionerId := None |}.

(** Key events by their key code: 27 is Esc, 13 is Enter. *)
Definition isEventKey (keyCode : nat) (name : string) : bool :=
  if decide (name = "esc") then bool_decide (keyCode = 27)
  else if decide (name = "enter") then bool_decide (keyCode = 13)
  else false.

(** Nodes by number; a node contains itself only. *)
Definition contains (wrapper target : nat) : bool :=
  bool_decide (wrapper = target).

(** A cache that hands every call without attrs the handler made for
    [bold]. *)
Definition cached (method : ActionName) (attrs : option Attrs)
    : ActionName * option Attrs :=
  match attrs with
  | None => (bold, None)
  | Some _ => (method, attrs)
  end.

Definition linkInputProps : LinkInputProps :=
  {| deactivateLink := [callDeactivateLink];
     updateLink := λ href,
       [callAction WysiwygMenu.updateLink (hrefArgument href)];
     removeLink := [callAction WysiwygMenu.removeLink noArgument];
     canRemove := λ _, true |}.

End SampleMenu.

(** * Properties *)

#[local] Set Warnings "-clear-no-such-hyp".

(** ** The effect monad *)
Section EffLaws.
Import Effect.
Context {A B : Type}.

Lemma bind_ret (a : A) (k : A → Eff B) : (mret a ≫= k) = k a.
Proof.
  unfold mret, mbind, Eff_ret, Eff_bind, ret, bind; simpl.
  by destruct (k a).
Qed.

Lemma bind_normal (m : Eff A) (k : A → Eff B) a :
  completion m = Normal a →
  m ≫= k = MkEff (trace m ++ trace (k a)) (completion (k a)).
Proof.
  intros Hm. unfold mbind, Eff_bind, bind. by rewrite Hm.
Qed.

End EffLaws.

(** ** The skip check *)
Section SkipCheck.
Import ProseMirror Effect Core NodeViews Rule.

Lemma skipCondition_cases c extension :
  skipCondition c extension =
    if decide (managerExcludes (initializeParameter c)) then mret true
    else if decide (lacksHook extension) then mret true
    else match ExtensionSettings.exclude (settings extension) with
         | Some exclude => mret (truthy (inputRules exclude))
         | None => throw TypeError
         end.
Proof.
  unfold skipCondition, or_else.
  destruct (decide (managerExcludes (initializeParameter c))) as [Ha|Ha].
  { unfold managerExcludes in Ha. by rewrite Ha. }
  assert (truthy (ManagerSettings.exclude
            (managerSettings (initializeParameter c)) ≫= inputRules) = false)
    as ->.
  { unfold managerExcludes in Ha.
    by destruct (_ ≫= inputRules) as [[]|]. }
  destruct (decide (lacksHook extension)) as [Hb|Hb]; unfold lacksHook in Hb.
  { by rewrite Hb. }
  destruct (createNodeViews (parameter extension)) as [f|]; [|done].
  by destruct (ExtensionSettings.exclude (settings extension)).
Qed.
End SkipCheck.

Section Aggregator.
Import ProseMirror Effect Core NodeViews Rule.

#[local] Instance hasExclude_dec e : Decision (hasExclude e).
Proof. unfold hasExclude. apply _. Defined.

Lemma push_parameter c items :
  initializeParameter (push c items) = initializeParameter c.
Proof. reflexivity. Qed.

Lemma push_nil c : push c [] = c.
Proof. destruct c. unfold push. simpl. by rewrite app_nil_r. Qed.

Lemma push_push c l1 l2 : push (push c l1) l2 = push c (l1 ++ l2).
Proof. unfold push. simpl. by rewrite app_assoc. Qed.

Lemma skip_check_true c extension :
  skipCondition c extension = mret true ↔
  skipped (initializeParameter c) extension.
Proof.
  rewrite skipCondition_cases. unfold skipped.
  destruct (decide (managerExcludes _)) as [Ha|Ha]; [naive_solver|].
  destruct (decide (lacksHook extension)) as [Hb|Hb]; [naive_solver|].
  unfold excludesItself.
  destruct (ExtensionSettings.exclude (settings extension)) as [[[[]|]]|];
    simpl; split; try naive_solver; intros [|[|]]; done.
Qed.

Lemma forEachExtension_cases c extension :
  forEachExtension c extension =
    if decide (skipped (initializeParameter c) extension) then mret c
    else match ExtensionSettings.exclude (settings extension) with
         | Some _ =>
             mret (push c (contribution (initializeParameter c) extension))
         | None => throw TypeError
         end.
Proof.
  unfold forEachExtension, contribution.
  destruct (decide (skipped _ _)) as [Hs|Hs].
  { apply skip_check_true in Hs. by rewrite Hs. }
  rewrite skipCondition_cases.
  unfold skipped in Hs.
  destruct (decide (managerExcludes _)); [naive_solver|].
  destruct (decide (lacksHook extension)) as [|Hb]; [naive_solver|].
  unfold lacksHook in Hb.
  destruct (ExtensionSettings.exclude (settings extension)) as [ex|] eqn:Hex;
    [|done].
  assert (truthy (inputRules ex) = false) as ->.
  { unfold excludesItself in Hs. rewrite Hex in Hs. simpl in Hs.
    destruct (inputRules ex) as [[]|]; naive_solver. }
  by destruct (createNodeViews (parameter extension)).
Qed.

Lemma faults_iff p extension :
  faults p extension ↔
  ¬ skipped p extension ∧ ExtensionSettings.exclude (settings extension) = None.
Proof.
  unfold faults, skipped, hasExclude, excludesItself.
  rewrite <-eq_None_not_Some.
  split.
  - intros (Ha & Hb & Hc). rewrite Hc. naive_solver.
  - intros [Hs Hc]. naive_solver.
Qed.

Lemma harvested_cons p e es :
  harvested p (e :: es) = contribution p e ++ harvested p es.
Proof. reflexivity. Qed.

Lemma visit_cases c extensions :
  visit c extensions =
    if decide (Exists (faults (initializeParameter c)) extensions)
    then throw TypeError
    else mret (push c (harvested (initializeParameter c) extensions)).
Proof.
  revert c. induction extensions as [|e es IH]; intros c; cbn [visit].
  { rewrite decide_False by (intros H; inversion H).
    unfold harvested. simpl. by rewrite push_nil. }
  rewrite forEachExtension_cases.
  destruct (decide (skipped _ e)) as [Hs|Hs].
  - rewrite bind_ret, IH, harvested_cons.
    assert (contribution (initializeParameter c) e = []) as ->.
    { unfold contribution. by rewrite decide_True. }
    simpl. repeat case_decide; try done.
    + exfalso. rewrite Exists_cons in *. naive_solver.
    + exfalso. rewrite Exists_cons, faults_iff in *. naive_solver.
  - destruct (ExtensionSettings.exclude (settings e)) eqn:Hex.
    + rewrite bind_ret, IH, push_parameter, push_push, harvested_cons.
      repeat case_decide; try done.
      * exfalso. rewrite Exists_cons in *. naive_solver.
      * exfalso. rewrite Exists_cons, faults_iff in *.
        naive_solver.
    + rewrite decide_True; [done|].
      apply Exists_cons_hd, faults_iff. done.
Qed.

Lemma visit_onInitialize p extensions :
  visit (onInitialize p) extensions =
    if decide (Exists (faults p) extensions) then throw TypeError
    else mret {| initializeParameter := p;
                 rules := harvested p extensions |}.
Proof. by rewrite visit_cases. Qed.

Lemma hasExclude_no_fault p extensions :
  Forall hasExclude extensions → ¬ Exists (faults p) extensions.
Proof.
  intros H. apply Forall_Exists_neg.
  eapply Forall_impl; [exact H|].
  intros e He (_ & _ & Hne). done.
Qed.

Lemma visit_hasExclude c extensions :
  Forall hasExclude extensions →
  visit c extensions =
    mret (push c (harvested (initializeParameter c) extensions)).
Proof.
  intros H. rewrite visit_cases, decide_False; [done|].
  by apply hasExclude_no_fault.
Qed.

End Aggregator.

Section AggregatorProperties.
Import ProseMirror Effect Core NodeViews Rule.

(** C1 (as amended).  A visited extension is skipped (the handler takes
    its early [return]) exactly when the manager-wide exclude map disables
    [inputRules], or the extension has no [createNodeViews], or its own
    [settings.exclude.inputRules] is [true]; a skipped extension leaves the
    accumulator as it is.  When none of the three holds and the settings of
    the extension carry their [exclude] object, what its [createNodeViews]
    returns is appended to the accumulator; when none holds and the
    settings carry no [exclude] object, the unguarded read throws a
    [TypeError] and nothing is appended. *)
Theorem forEachExtension_skip_rule c extension :
  let p := initializeParameter c in
  (skipCondition c extension = mret true ↔
     managerExcludes p ∨ lacksHook extension ∨ excludesItself extension)
  ∧ (skipCondition c extension = mret true →
     forEachExtension c extension = mret c)
  ∧ (¬ (managerExcludes p ∨ lacksHook extension ∨ excludesItself extension) →
     hasExclude extension →
     ∃ f, createNodeViews (parameter extension) = Some f
        ∧ forEachExtension c extension =
            mret {| initializeParameter := p;
                    rules := rules c
                             ++ f (getParameter p extension) (self extension) |})
  ∧ (¬ (managerExcludes p ∨ lacksHook extension ∨ excludesItself extension) →
     ¬ hasExclude extension →
     forEachExtension c extension = throw TypeError).
Proof.
  intros p. split; [apply skip_check_true|]. split; [|split].
  - intros Hs. unfold forEachExtension. by rewrite Hs.
  - intros Hs [ex Hex]. rewrite forEachExtension_cases.
    fold (skipped p extension) in Hs. subst p.
    rewrite decide_False, Hex by done.
    unfold contribution. rewrite decide_False by done.
    unfold skipped, lacksHook in Hs.
    destruct (createNodeViews (parameter extension)) as [f|]; [|naive_solver].
    by exists f.
  - intros Hs Hne. rewrite forEachExtension_cases.
    fold (skipped p extension) in Hs. subst p.
    rewrite decide_False by done. unfold hasExclude in Hne.
    destruct (ExtensionSettings.exclude (settings extension)); [|done].
    exfalso. apply Hne. eauto.
Qed.

(** C1, as stated, fails on an extension that implements [createNodeViews]
    while its settings carry no [exclude] object, under manager settings
    that exclude nothing: none of the three conditions holds, yet the visit
    throws a [TypeError] instead of appending the extension's rules. *)
Lemma forEachExtension_throws_when_none_holds :
  ¬ (¬ (managerExcludes
          (Manager.initializeParameter Sample.noManagerExcludes
             Sample.typeParameter)
        ∨ lacksHook Sample.Bare ∨ excludesItself Sample.Bare) →
     ∃ f, createNodeViews (parameter Sample.Bare) = Some f
        ∧ forEachExtension
            (onInitialize
               (Manager.initializeParameter Sample.noManagerExcludes
                  Sample.typeParameter)) Sample.Bare =
          mret {| initializeParameter :=
                    Manager.initializeParameter Sample.noManagerExcludes
                      Sample.typeParameter;
                  rules := [] ++ f (Sample.typeParameter Sample.Bare)
                                   (self Sample.Bare) |}).
Proof.
  intros H. destruct H as (f & _ & Hf).
  - intros [Ha|[Hb|Hc]]; vm_compute in Ha || vm_compute in Hb
      || vm_compute in Hc; discriminate.
  - vm_compute in Hf. discriminate.
Qed.

Lemma forEachExtension_skip_rule_witness :
  ∃ f, createNodeViews (parameter Sample.Bold) = Some f
     ∧ forEachExtension
         (onInitialize (Manager.initializeParameter Sample.noManagerExcludes
                          Sample.typeParameter)) Sample.Bold =
       mret {| initializeParameter :=
                 Manager.initializeParameter Sample.noManagerExcludes
                   Sample.typeParameter;
               rules := [] ++ f (Sample.typeParameter Sample.Bold)
                                (self Sample.Bold) |}.
Proof.
  apply (proj2 (proj2 (forEachExtension_skip_rule
    (onInitialize (Manager.initializeParameter Sample.noManagerExcludes
                     Sample.typeParameter)) Sample.Bold))).
  - intros [H|[H|H]]; vm_compute in H; discriminate.
  - vm_compute. eauto.
Defined.

Lemma initialize_cases p extensions :
  initialize p extensions =
    if decide (Exists (faults p) extensions) then throw TypeError
    else addPlugins p
           [ProseMirror.inputRules {| ProseMirror.rules := harvested p extensions |}].
Proof.
  unfold initialize. rewrite visit_cases. simpl.
  destruct (decide (Exists (faults p) extensions)) as [H|H].
  - done.
  - by rewrite bind_ret.
Qed.

Lemma managerExcludes_skipped p extension :
  managerExcludes p → contribution p extension = [].
Proof.
  intros Ha. unfold contribution. rewrite decide_True; [done|]. by left.
Qed.

Lemma managerExcludes_harvested p extensions :
  managerExcludes p → harvested p extensions = [].
Proof.
  intros Ha. induction extensions as [|e es IH]; [done|].
  by rewrite harvested_cons, IH, managerExcludes_skipped.
Qed.

Lemma managerExcludes_no_fault p extensions :
  managerExcludes p → ¬ Exists (faults p) extensions.
Proof.
  intros Ha. apply Forall_Exists_neg, Forall_forall.
  intros e _ (Hna & _). done.
Qed.

(** C2.  When the manager-wide settings set [exclude.inputRules = true],
    every visit is skipped, so the loop over any list of extensions ends
    with the rule list empty; [afterExtensionLoop] still calls [addPlugins],
    with a plugin of no rules, so the manager registers exactly that one
    plugin. *)
Theorem manager_exclude_harvests_nothing p extensions :
  managerExcludes p →
  (∀ c extension,
     initializeParameter c = p → forEachExtension c extension = mret c)
  ∧ visit (onInitialize p) extensions =
      mret {| initializeParameter := p; rules := [] |}
  ∧ initialize p extensions =
      addPlugins p [ProseMirror.inputRules {| ProseMirror.rules := [] |}]
  ∧ (addPlugins p = Manager.addPlugins →
     initialize p extensions =
       MkEff [AddPlugins [ProseMirror.inputRules {| ProseMirror.rules := [] |}]] (Normal tt)).
Proof.
  intros Ha. split; [|split; [|split]].
  - intros c e <-. rewrite forEachExtension_cases, decide_True; [done|].
    by left.
  - rewrite visit_cases, decide_False
      by (by apply managerExcludes_no_fault).
    simpl. by rewrite managerExcludes_harvested.
  - rewrite initialize_cases, decide_False
      by (by apply managerExcludes_no_fault).
    by rewrite managerExcludes_harvested.
  - intros Hcb. rewrite initialize_cases, decide_False
      by (by apply managerExcludes_no_fault).
    by rewrite managerExcludes_harvested, Hcb.
Qed.

Lemma manager_exclude_harvests_nothing_witness :
  initialize
    (Manager.initializeParameter Sample.excludeInputRules Sample.typeParameter)
    [extension Sample.Bold; extension Sample.Heading; extension Sample.Bare] =
  MkEff [AddPlugins [ProseMirror.inputRules {| ProseMirror.rules := [] |}]] (Normal tt).
Proof.
  apply (manager_exclude_harvests_nothing
    (Manager.initializeParameter Sample.excludeInputRules Sample.typeParameter)
    [extension Sample.Bold; extension Sample.Heading; extension Sample.Bare]);
    reflexivity.
Defined.

(** C3 (as amended).  With the manager's [addPlugins] callback,
    [afterExtensionLoop] makes exactly one [addPlugins] call, whose only
    argument is the plugin made of the accumulated rules; so every run
    whose loop returns ends with exactly one call, passing the one plugin
    that wraps everything harvested, and the loop returns over every list
    of extensions whose settings carry their [exclude] object.  A run in
    which a visit throws does not reach [afterExtensionLoop] and makes no
    [addPlugins] call. *)
Theorem afterExtensionLoop_registers_one_plugin settings getParameter extensions :
  let p := Manager.initializeParameter settings getParameter in
  (∀ c, initializeParameter c = p →
     afterExtensionLoop c =
       MkEff [AddPlugins [ProseMirror.inputRules {| ProseMirror.rules := rules c |}]]
             (Normal tt))
  ∧ (∀ c, visit (onInitialize p) extensions = mret c →
     initialize p extensions =
       MkEff [AddPlugins [ProseMirror.inputRules {| ProseMirror.rules := rules c |}]]
             (Normal tt))
  ∧ (Forall hasExclude extensions →
     completion (initialize p extensions) = Normal tt
     ∧ addPluginsCalls (trace (initialize p extensions)) =
         [[ProseMirror.inputRules {| ProseMirror.rules := harvested p extensions |}]])
  ∧ (∀ e, completion (visit (onInitialize p) extensions) = Throw e →
     initialize p extensions = MkEff [] (Throw e)).
Proof.
  intros p. split; [|split; [|split]]; cycle 3.
  { intros e He. unfold initialize.
    rewrite visit_onInitialize in He |- *.
    destruct (decide (Exists (faults p) extensions)); [|done].
    by injection He as <-. }
  - intros c Hc. unfold afterExtensionLoop. by rewrite Hc.
  - intros c Hc. unfold initialize. rewrite Hc, bind_ret.
    unfold afterExtensionLoop.
    assert (initializeParameter c = p) as ->; [|done].
    rewrite visit_cases in Hc. case_decide; [done|].
    by injection Hc as <-.
  - intros Hwf. rewrite initialize_cases, decide_False
      by (by apply hasExclude_no_fault).
    done.
Qed.

Lemma afterExtensionLoop_registers_one_plugin_witness :
  completion
    (initialize
       (Manager.initializeParameter Sample.noManagerExcludes Sample.typeParameter)
       [extension Sample.Bold; extension Sample.Heading]) = Normal tt
  ∧ addPluginsCalls
      (trace
         (initialize
            (Manager.initializeParameter Sample.noManagerExcludes
               Sample.typeParameter)
            [extension Sample.Bold; extension Sample.Heading])) =
    [[ProseMirror.inputRules
        {| ProseMirror.rules :=
             harvested
               (Manager.initializeParameter Sample.noManagerExcludes
                  Sample.typeParameter)
               [extension Sample.Bold; extension Sample.Heading] |}]].
Proof.
  apply (afterExtensionLoop_registers_one_plugin Sample.noManagerExcludes
           Sample.typeParameter
           [extension Sample.Bold; extension Sample.Heading]).
  repeat constructor; vm_compute; eauto.
Defined.

(** C3, as stated, fails on a list that holds an extension implementing
    [createNodeViews] with settings that carry no [exclude] object: the
    visit of it throws, [afterExtensionLoop] is never called, and the run
    makes no [addPlugins] call at all, let alone exactly one. *)
Lemma run_with_throwing_visit_registers_no_plugin :
  ¬ ∃ plugin,
      addPluginsCalls
        (trace
           (initialize
              (Manager.initializeParameter Sample.noManagerExcludes
                 Sample.typeParameter)
              [extension Sample.Bold; extension Sample.Bare])) = [[plugin]].
Proof. intros [plugin H]. vm_compute in H. discriminate. Qed.

(** C4.  When the loop of a run returns, its accumulator holds the
    concatenation, in visit order, of what each visited extension
    contributes (nothing when it is skipped, the result of its
    [createNodeViews] otherwise), and that list is the rule list of the
    plugin handed to [addPlugins]; over extensions whose settings carry
    their [exclude] object the loop does return; for two contributing
    extensions Bold then Heading, Bold's rules come first, as Bold returned
    them, followed by Heading's. *)
Theorem aggregated_rules_in_visit_order p extensions :
  (∀ c, visit (onInitialize p) extensions = mret c →
     rules c = flat_map (contribution p) extensions
     ∧ initialize p extensions =
         addPlugins p
           [ProseMirror.inputRules
              {| ProseMirror.rules := flat_map (contribution p) extensions |}])
  ∧ (Forall hasExclude extensions →
     visit (onInitialize p) extensions =
       mret {| initializeParameter := p;
               rules := flat_map (contribution p) extensions |})
  ∧ (∀ Bold Heading fBold fHeading,
       extensions = [Bold; Heading] →
       ¬ skipped p Bold → ¬ skipped p Heading →
       createNodeViews (parameter Bold) = Some fBold →
       createNodeViews (parameter Heading) = Some fHeading →
       flat_map (contribution p) extensions =
         fBold (getParameter p Bold) (self Bold)
         ++ fHeading (getParameter p Heading) (self Heading)).
Proof.
  split; [|split].
  - intros c Hc. rewrite initialize_cases.
    rewrite visit_onInitialize in Hc.
    destruct (decide (Exists (faults p) extensions)); [done|].
    by injection Hc as <-.
  - intros Hwf. by rewrite visit_hasExclude.
  - intros B H fB fH -> HB HH HfB HfH. simpl.
    unfold contribution. rewrite !decide_False by done.
    by rewrite HfB, HfH, app_nil_r.
Qed.

Lemma aggregated_rules_in_visit_order_witness :
  visit
    (onInitialize
       (Manager.initializeParameter Sample.noManagerExcludes Sample.typeParameter))
    [extension Sample.Bold; extension Sample.Heading] =
  mret {| initializeParameter :=
            Manager.initializeParameter Sample.noManagerExcludes
              Sample.typeParameter;
          rules := Sample.boldRules ++ Sample.headingRules |}.
Proof.
  apply (aggregated_rules_in_visit_order
           (Manager.initializeParameter Sample.noManagerExcludes
              Sample.typeParameter)
           [extension Sample.Bold; extension Sample.Heading]).
  repeat constructor; vm_compute; eauto.
Defined.

Lemma contribution_agree p1 p2 e :
  managerSettings p1 = managerSettings p2 →
  getParameter p1 e = getParameter p2 e →
  contribution p1 e = contribution p2 e.
Proof.
  intros Hs Hg.
  assert (skipped p1 e ↔ skipped p2 e) as Hiff.
  { unfold skipped, managerExcludes. by rewrite Hs. }
  unfold contribution. rewrite Hg.
  destruct (decide (skipped p1 e)) as [H1|H1].
  - rewrite decide_True; [done|]. by apply Hiff.
  - rewrite decide_False; [done|]. by rewrite <-Hiff.
Qed.

Lemma harvested_agree p1 p2 extensions :
  managerSettings p1 = managerSettings p2 →
  (∀ e, e ∈ extensions → getParameter p1 e = getParameter p2 e) →
  harvested p1 extensions = harvested p2 extensions.
Proof.
  intros Hs. induction extensions as [|e es IH]; intros Hg; [done|].
  rewrite !harvested_cons, IH.
  - f_equal. apply contribution_agree; [done|]. apply Hg. by left.
  - intros e' He'. apply Hg. by right.
Qed.

Lemma faults_agree p1 p2 extensions :
  managerSettings p1 = managerSettings p2 →
  Exists (faults p1) extensions ↔ Exists (faults p2) extensions.
Proof.
  intros Hs. unfold faults, managerExcludes. by rewrite Hs.
Qed.

Lemma bind_assoc {A B C} (m : Eff A) (f : A → Eff B) (g : B → Eff C) :
  (m ≫= f) ≫= g = m ≫= (λ x, f x ≫= g).
Proof.
  unfold mbind, Eff_bind, bind.
  destruct m as [t [a|e]]; simpl; [|done].
  destruct (f a) as [t' [b|e]]; simpl; [|done].
  by rewrite app_assoc.
Qed.

Lemma bind_ext {A B} (m : Eff A) (f g : A → Eff B) :
  (∀ x, f x = g x) → m ≫= f = m ≫= g.
Proof.
  intros H. unfold mbind, Eff_bind, bind.
  destruct m as [t [a|e]]; simpl; [|done]. by rewrite H.
Qed.

Lemma run_app handlers calls1 calls2 :
  Session.run handlers (calls1 ++ calls2) =
    handlers' ← Session.run handlers calls1; Session.run handlers' calls2.
Proof.
  revert handlers. induction calls1 as [|call calls1 IH]; intros handlers.
  { cbn [Session.run app]. by rewrite bind_ret. }
  cbn [Session.run app]. rewrite bind_assoc.
  apply bind_ext. intros h. apply IH.
Qed.

Lemma run_loop c extensions :
  Session.run (Some c) (Session.callForEachExtension <$> extensions) =
    c' ← visit c extensions; mret (Some c').
Proof.
  revert c. induction extensions as [|e es IH]; intros c.
  { cbn [Session.run fmap list_fmap visit]. by rewrite bind_ret. }
  cbn [Session.run fmap list_fmap Session.step visit].
  rewrite !bind_assoc. apply bind_ext. intros c'.
  by rewrite bind_ret, IH.
Qed.

Lemma run_loopAndFlush c extensions :
  Session.run (Some c) (Session.loopAndFlush extensions) =
    c' ← visit c extensions; _ ← afterExtensionLoop c'; mret (Some c').
Proof.
  unfold Session.loopAndFlush. rewrite run_app, run_loop, bind_assoc.
  apply bind_ext. intros c'. rewrite bind_ret.
  cbn [Session.run Session.step]. rewrite bind_assoc.
  apply bind_ext. intros u. by rewrite !bind_ret.
Qed.

Lemma run_initialization handlers p extensions :
  addPlugins p = Manager.addPlugins →
  Session.run handlers (Session.initialization p extensions) =
    if decide (Exists (faults p) extensions) then throw TypeError
    else MkEff
           [AddPlugins
              [ProseMirror.inputRules
                 {| ProseMirror.rules := harvested p extensions |}]]
           (Normal (Some {| initializeParameter := p;
                            rules := harvested p extensions |})).
Proof.
  intros Hcb. unfold Session.initialization.
  cbn [Session.run]. 
  assert (Session.step handlers (Session.callOnInitialize p) =
          mret (Some (onInitialize p))) as -> by (by destruct handlers).
  rewrite bind_ret, run_loopAndFlush, visit_onInitialize.
  destruct (decide (Exists (faults p) extensions)); [done|].
  rewrite bind_ret. unfold afterExtensionLoop. simpl. by rewrite Hcb.
Qed.

(** A second pass of the loop and [afterExtensionLoop] over handlers that
    have been through one already, without a new [onInitialize] call, goes
    on from the rules they hold: the second plugin has every rule twice. *)
Lemma loop_again_on_same_handlers_accumulates handlers p extensions :
  addPlugins p = Manager.addPlugins →
  ¬ Exists (faults p) extensions →
  trace (Session.run handlers
           (Session.initialization p extensions
            ++ Session.loopAndFlush extensions)) =
    [AddPlugins
       [ProseMirror.inputRules
          {| ProseMirror.rules := harvested p extensions |}];
     AddPlugins
       [ProseMirror.inputRules
          {| ProseMirror.rules :=
               harvested p extensions ++ harvested p extensions |}]].
Proof.
  intros Hcb Hnf. rewrite run_app, run_initialization by done.
  rewrite decide_False by done.
  erewrite bind_normal by reflexivity.
  rewrite run_loopAndFlush, visit_cases. cbn [initializeParameter].
  rewrite decide_False by done. rewrite bind_ret.
  unfold afterExtensionLoop. simpl. by rewrite Hcb.
Qed.

(** C6.  Two initializations of the aggregator over the same ordered list
    of extensions, with the same manager settings and the same parameter
    object for every visited extension, end with the same rule sequence (or
    the same throw), and with the same [addPlugins] callback they are equal
    as computations.  As calls on a stateful extension: whatever handlers
    earlier calls left behind, and whatever they had accumulated, an
    initialization ([onInitialize], the loop, [afterExtensionLoop]) makes
    the one [addPlugins] call with exactly the rules harvested from the
    list, or none when a visit throws; two initializations leave the same
    trace; and one run right after the other registers the same plugin a
    second time, nothing of the first run being carried over. *)
Theorem initialize_deterministic p1 p2 extensions :
  managerSettings p1 = managerSettings p2 →
  (∀ e, e ∈ extensions → getParameter p1 e = getParameter p2 e) →
  ruleSequence p1 extensions = ruleSequence p2 extensions
  ∧ (addPlugins p1 = addPlugins p2 →
     initialize p1 extensions = initialize p2 extensions
     ∧ registered (trace (initialize p1 extensions)) =
       registered (trace (initialize p2 extensions)))
  ∧ (addPlugins p1 = Manager.addPlugins →
     addPlugins p2 = Manager.addPlugins →
     ∀ handlers1 handlers2,
       trace (Session.run handlers1 (Session.initialization p1 extensions)) =
         match ruleSequence p1 extensions with
         | Normal harvest =>
             [AddPlugins
                [ProseMirror.inputRules {| ProseMirror.rules := harvest |}]]
         | Throw _ => []
         end
       ∧ trace (Session.run handlers1 (Session.initialization p1 extensions)) =
         trace (Session.run handlers2 (Session.initialization p2 extensions))
       ∧ ∀ harvest,
           ruleSequence p1 extensions = Normal harvest →
           harvest = flat_map (contribution p1) extensions
           ∧ Session.run handlers1
               (Session.initialization p1 extensions
                ++ Session.initialization p2 extensions) =
             MkEff
               [AddPlugins
                  [ProseMirror.inputRules {| ProseMirror.rules := harvest |}];
                AddPlugins
                  [ProseMirror.inputRules {| ProseMirror.rules := harvest |}]]
               (Normal (Some {| initializeParameter := p2;
                                rules := harvest |}))).
Proof.
  intros Hs Hg.
  assert (Exists (faults p1) extensions ↔ Exists (faults p2) extensions)
    as Hf by (by apply faults_agree).
  assert (harvested p1 extensions = harvested p2 extensions)
    as Hh by (by apply harvested_agree).
  split; [|split].
  - unfold ruleSequence. rewrite !visit_cases. simpl.
    destruct (decide (Exists (faults p1) extensions)) as [H1|H1].
    + rewrite decide_True; [done|]. by apply Hf.
    + rewrite decide_False by (by rewrite <-Hf).
      simpl. by rewrite Hh.
  - intros Hcb.
    assert (initialize p1 extensions = initialize p2 extensions) as ->;
      [|done].
    rewrite !initialize_cases.
    destruct (decide (Exists (faults p1) extensions)) as [H1|H1].
    + rewrite decide_True; [done|]. by apply Hf.
    + rewrite decide_False by (by rewrite <-Hf).
      by rewrite Hh, Hcb.
  - intros Hcb1 Hcb2 handlers1 handlers2.
    unfold ruleSequence. rewrite visit_onInitialize.
    rewrite (run_initialization handlers1 p1) by done.
    rewrite (run_initialization handlers2 p2) by done.
    destruct (decide (Exists (faults p1) extensions)) as [H1|H1].
    + rewrite decide_True by (by apply Hf). done.
    + rewrite decide_False by (by rewrite <-Hf).
      split; [done|]. split; [by rewrite Hh|].
      intros harvest [= <-]. split; [done|].
      rewrite run_app, (run_initialization handlers1 p1) by done.
      rewrite decide_False by done.
      erewrite bind_normal by reflexivity.
      rewrite run_initialization by done.
      rewrite decide_False by (by rewrite <-Hf). by rewrite Hh.
Qed.

Lemma initialize_deterministic_witness :
  ruleSequence
    (Manager.initializeParameter Sample.noManagerExcludes Sample.typeParameter)
    [extension Sample.Bold; extension Sample.Heading] =
  ruleSequence
    (Manager.initializeParameter Sample.noManagerExcludes
       Sample.plainParameter)
    [extension Sample.Bold; extension Sample.Heading].
Proof.
  apply (initialize_deterministic
    (Manager.initializeParameter Sample.noManagerExcludes Sample.typeParameter)
    (Manager.initializeParameter Sample.noManagerExcludes
       Sample.plainParameter)
    [extension Sample.Bold; extension Sample.Heading]).
  - reflexivity.
  - intros e He. apply elem_of_cons in He as [->|He]; [reflexivity|].
    apply list_elem_of_singleton in He as ->. reflexivity.
Defined.

Lemma harvested_app p l1 l2 :
  harvested p (l1 ++ l2) = harvested p l1 ++ harvested p l2.
Proof. unfold harvested. by rewrite flat_map_app. Qed.

(** C8.  The manager's harvest loop hands every requesting extension the
    whole sorted list, the requester included.  Visiting the aggregator
    itself takes the early [return] on the hook-presence check, whatever
    the manager settings and the aggregator's own settings are: the
    accumulator is unchanged, and a run over a list that contains the
    aggregator ends like the run over the list without it. *)
Theorem self_visit_adds_nothing Low settings :
  let aggregator := NodeViewsExtension Low settings in
  lacksHook aggregator
  ∧ (∀ c, skipCondition c aggregator = mret true
        ∧ forEachExtension c aggregator = mret c)
  ∧ (∀ p before after,
       visit (onInitialize p) (before ++ extension aggregator :: after) =
       visit (onInitialize p) (before ++ after))
  ∧ (∀ registered r visited,
       (r, visited) ∈ Manager.schedule (Manager.sortExtensions registered) →
       extension r ∈ visited).
Proof.
  intros aggregator.
  assert (lacksHook aggregator) as Hb by reflexivity.
  assert (∀ p, skipped p aggregator) as Hs by (intros p; right; by left).
  split; [done|]. split; [|split].
  - intros c. split.
    + by apply skip_check_true.
    + by rewrite forEachExtension_cases, decide_True.
  - intros p before after. rewrite !visit_onInitialize.
    assert (contribution p aggregator = []) as Hc.
    { unfold contribution. by rewrite decide_True. }
    assert (Exists (faults p) (before ++ extension aggregator :: after)
            ↔ Exists (faults p) (before ++ after)) as Hf.
    { rewrite !Exists_app, Exists_cons.
      assert (¬ faults p aggregator) by (intros (_ & ? & _); done).
      naive_solver. }
    destruct (decide (Exists (faults p) (before ++ after))) as [H|H].
    + rewrite decide_True; [done|]. by apply Hf.
    + rewrite decide_False by (by rewrite Hf).
      by rewrite !harvested_app, harvested_cons, Hc.
  - intros registered r visited Hin. unfold Manager.schedule in Hin.
    apply list_elem_of_fmap in Hin as (r' & Heq & Hr'). injection Heq as -> ->.
    apply list_elem_of_fmap. eauto.
Qed.

Lemma self_visit_adds_nothing_witness :
  visit
    (onInitialize
       (Manager.initializeParameter Sample.noManagerExcludes Sample.typeParameter))
    ([extension Sample.Bold]
     ++ extension (NodeViewsExtension Sample.Low (ExtensionSettings.mk None))
     :: [extension Sample.Heading]) =
  visit
    (onInitialize
       (Manager.initializeParameter Sample.noManagerExcludes Sample.typeParameter))
    ([extension Sample.Bold] ++ [extension Sample.Heading]).
Proof.
  apply (self_visit_adds_nothing Sample.Low (ExtensionSettings.mk None)).
Defined.

(** C10 (as amended).  The skip check reads the manager-wide exclude map
    through an optional access, which never throws; it reads the visited
    extension's [settings.exclude.inputRules] unguarded, but only after the
    two earlier operands came out falsy.  So the check throws exactly when
    the manager does not exclude [inputRules], the extension implements
    [createNodeViews], and its settings carry no [exclude] object; on an
    extension whose settings carry one the check and the handler complete
    normally, and so does the loop over a list of such extensions. *)
Theorem skip_check_fault_condition c extension :
  let p := initializeParameter c in
  (skipCondition c extension = throw TypeError ↔
     ¬ managerExcludes p ∧ ¬ lacksHook extension ∧ ¬ hasExclude extension)
  ∧ (¬ (¬ managerExcludes p ∧ ¬ lacksHook extension ∧ ¬ hasExclude extension) →
     ∃ skip, skipCondition c extension = mret skip)
  ∧ (hasExclude extension →
     (∃ skip, skipCondition c extension = mret skip)
     ∧ ∃ c', forEachExtension c extension = mret c')
  ∧ (∀ extensions, Forall hasExclude extensions →
     ∃ c', visit c extensions = mret c').
Proof.
  intros p.
  assert (∀ b : bool, @mret Eff _ _ b ≠ throw TypeError) as Hne by done.
  assert (faults p extension ∨
          ∃ skip, skipCondition c extension = mret skip) as Hcases.
  { rewrite skipCondition_cases. fold p. unfold faults, hasExclude.
    destruct (decide (managerExcludes p)); [eauto|].
    destruct (decide (lacksHook extension)); [eauto|].
    destruct (ExtensionSettings.exclude (settings extension)) eqn:Hex;
      [eauto|].
    left. repeat split; try done. }
  split; [|split; [|split]].
  - fold (faults p extension). split.
    + intros Ht. destruct Hcases as [|[b Hb]]; [done|].
      rewrite Hb in Ht. by apply Hne in Ht.
    + intros (Ha & Hb & Hc). rewrite skipCondition_cases. fold p.
      rewrite !decide_False by done.
      unfold hasExclude in Hc.
      destruct (ExtensionSettings.exclude (settings extension)); [|done].
      exfalso. apply Hc. eauto.
  - intros Hnf. destruct Hcases; done.
  - intros Hex. split.
    + destruct Hcases as [(_ & _ & ?)|]; done.
    + rewrite forEachExtension_cases. destruct Hex as [ex ->].
      case_decide; eauto.
  - intros extensions Hwf. rewrite visit_hasExclude by done. eauto.
Qed.

Lemma skip_check_fault_condition_witness :
  (∃ skip,
     skipCondition
       (onInitialize (Manager.initializeParameter Sample.noManagerExcludes
                        Sample.typeParameter)) Sample.Heading = mret skip)
  ∧ ∃ c',
      forEachExtension
        (onInitialize (Manager.initializeParameter Sample.noManagerExcludes
                         Sample.typeParameter)) Sample.Heading = mret c'.
Proof.
  apply (skip_check_fault_condition
    (onInitialize (Manager.initializeParameter Sample.noManagerExcludes
                     Sample.typeParameter)) Sample.Heading).
  vm_compute. eauto.
Defined.

(** C10, as stated, fails: the aggregator made with settings that carry no
    [exclude] object violates the precondition, yet the skip check is well
    defined on it (it returns [true] at the hook-presence operand) under
    manager settings that exclude nothing. *)
Lemma skip_check_defined_without_exclude :
  ¬ ((∀ e, e ∈ [extension (NodeViewsExtension Sample.Low
                             (ExtensionSettings.mk None))] →
        ∃ skip,
          skipCondition
            (onInitialize (Manager.initializeParameter
                             Sample.noManagerExcludes Sample.typeParameter))
            e = mret skip) →
     Forall hasExclude
       [extension (NodeViewsExtension Sample.Low (ExtensionSettings.mk None))]).
Proof.
  intros H.
  assert (hasExclude (NodeViewsExtension Sample.Low (ExtensionSettings.mk None)))
    as [ex Hex]; [|discriminate Hex].
  eapply Forall_inv, H.
  intros e ->%list_elem_of_singleton. by exists true.
Qed.

End AggregatorProperties.

(** ** The manager's order and validation *)
Section ManagerProperties.
Import ProseMirror Effect Core Rule Manager.

#[local] Instance precedes_total : Total precedes.
Proof. intros [i a] [j b]. unfold precedes. simpl. lia. Qed.

#[local] Instance precedes_trans : Transitive precedes.
Proof. intros [i a] [j b] [k c]. unfold precedes. simpl. lia. Qed.

Lemma StronglySorted_lookup {A} (R : relation A) l i j x y :
  StronglySorted R l → i < j → l !! i = Some x → l !! j = Some y → R x y.
Proof.
  intros Hl. revert i j. induction Hl as [|z l Hl IH Hz]; intros i j Hij Hi Hj.
  { done. }
  destruct j as [|j]; [lia|]. destruct i as [|i]; simpl in *.
  - injection Hi as ->. rewrite Forall_forall in Hz.
    apply Hz. by eapply list_elem_of_lookup_2.
  - apply (IH i j); [lia|done..].
Qed.

Lemma lookup_StronglySorted {A} (R : relation A) l :
  (∀ i j x y, i < j → l !! i = Some x → l !! j = Some y → R x y) →
  StronglySorted R l.
Proof.
  induction l as [|z l IH]; intros H; constructor.
  - apply IH. intros i j x y Hij Hi Hj. apply (H (S i) (S j)); [lia|done..].
  - apply Forall_forall. intros y [j Hj]%list_elem_of_lookup_1.
    apply (H 0 (S j)); [lia|done..].
Qed.

Lemma indexed_snd extensions : (indexed extensions).*2 = extensions.
Proof.
  unfold indexed. rewrite fmap_imap.
  rewrite (imap_ext _ (λ _ x, x)) by done.
  induction extensions as [|x l IH]; [done|].
  rewrite imap_cons. f_equal. exact IH.
Qed.

Lemma elem_of_indexed extensions k a :
  (k, a) ∈ indexed extensions ↔ extensions !! k = Some a.
Proof.
  unfold indexed. rewrite elem_of_lookup_imap. split.
  - intros (i & x & [= -> ->] & Hx). done.
  - intros H. eauto.
Qed.

Lemma NoDup_indexed extensions : NoDup (indexed extensions).
Proof.
  apply NoDup_alt. intros i j [k a] Hi Hj. unfold indexed in *.
  rewrite list_lookup_imap in Hi, Hj.
  destruct (extensions !! i) eqn:Ei; [|done].
  destruct (extensions !! j) eqn:Ej; [|done].
  simpl in *. congruence.
Qed.

Lemma sortExtensions_Permutation extensions :
  sortExtensions extensions ≡ₚ extensions.
Proof.
  unfold sortExtensions. rewrite merge_sort_Permutation.
  by rewrite indexed_snd.
Qed.

Lemma name_index extensions i j a :
  NoDup (nameOf <$> extensions) →
  extensions !! i = Some a → extensions !! j = Some a → i = j.
Proof.
  intros Hnd Hi Hj.
  apply (NoDup_lookup _ i j (nameOf a) Hnd);
    rewrite list_lookup_fmap; [by rewrite Hi | by rewrite Hj].
Qed.

Lemma sortExtensions_inPriorityOrder extensions :
  NoDup (nameOf <$> extensions) →
  inPriorityOrder extensions (sortExtensions extensions).
Proof.
  intros Hnd i j a b ia ib Hij Hi Hj Hia Hib.
  unfold sortExtensions in Hi, Hj. rewrite list_lookup_fmap in Hi, Hj.
  destruct (merge_sort precedes (indexed extensions) !! i)
    as [[ka a']|] eqn:Ei; [|done].
  destruct (merge_sort precedes (indexed extensions) !! j)
    as [[kb b']|] eqn:Ej; [|done].
  simpl in Hi, Hj. injection Hi as ->. injection Hj as ->.
  pose proof (merge_sort_Permutation precedes (indexed extensions)) as Hp.
  assert (extensions !! ka = Some a) as Hka.
  { apply elem_of_indexed. rewrite <-Hp. by eapply list_elem_of_lookup_2. }
  assert (extensions !! kb = Some b) as Hkb.
  { apply elem_of_indexed. rewrite <-Hp. by eapply list_elem_of_lookup_2. }
  assert (ka = ia) as -> by (by eapply name_index).
  assert (kb = ib) as -> by (by eapply name_index).
  assert (precedes (ia, a) (ib, b)) as Hpre.
  { eapply (StronglySorted_lookup precedes); [|exact Hij|exact Ei|exact Ej].
    apply StronglySorted_merge_sort; apply _. }
  assert (ia ≠ ib) as Hne.
  { intros ->. assert (a = b) as -> by congruence.
    assert (NoDup (merge_sort precedes (indexed extensions))) as Hnd'.
    { rewrite Hp. apply NoDup_indexed. }
    pose proof (NoDup_lookup _ i j _ Hnd' Ei Ej). lia. }
  unfold precedes in Hpre. simpl in Hpre. lia.
Qed.

Lemma inPriorityOrder_unique extensions l1 l2 :
  l1 ≡ₚ extensions → l2 ≡ₚ extensions →
  inPriorityOrder extensions l1 → inPriorityOrder extensions l2 → l1 = l2.
Proof.
  intros Hp1 Hp2 H1 H2.
  set (R := λ a b : RegisteredExtension,
         ∀ ia ib, extensions !! ia = Some a → extensions !! ib = Some b →
           (priority a < priority b)%Z ∨ (priority a = priority b ∧ ia < ib)).
  apply (StronglySorted_unique_strong R).
  - intros x1 x2 Hx1 Hx2 H12 H21.
    rewrite Hp1 in Hx1. rewrite Hp2 in Hx2.
    apply list_elem_of_lookup_1 in Hx1 as [ia Hia].
    apply list_elem_of_lookup_1 in Hx2 as [ib Hib].
    specialize (H12 ia ib Hia Hib). specialize (H21 ib ia Hib Hia). lia.
  - apply lookup_StronglySorted. intros i j x y Hij Hi Hj ia ib Hia Hib.
    by apply (H1 i j x y ia ib).
  - apply lookup_StronglySorted. intros i j x y Hij Hi Hj ia ib Hia Hib.
    by apply (H2 i j x y ia ib).
  - by rewrite Hp1, Hp2.
Qed.

Lemma trace_bind {A B} (m : Eff A) (k : A → Eff B) :
  trace (m ≫= k) =
    trace m ++ match completion m with
               | Normal a => trace (k a)
               | Throw _ => []
               end.
Proof.
  unfold mbind, Eff_bind, bind.
  destruct (completion m); simpl; by rewrite ?app_nil_r.
Qed.

Lemma completion_bind {A B} (m : Eff A) (k : A → Eff B) :
  completion (m ≫= k) =
    match completion m with
    | Normal a => completion (k a)
    | Throw e => Throw e
    end.
Proof. unfold mbind, Eff_bind, bind. by destruct (completion m). Qed.

Lemma trace_callHook {A} owner hook (body : Eff A) :
  trace (callHook owner hook body) = HookCall owner hook :: trace body.
Proof. reflexivity. Qed.

Lemma completion_callHook {A} owner hook (body : Eff A) :
  completion (callHook owner hook body) =
    match completion body with
    | Normal a => Normal a
    | Throw _ => Throw (InitializationError owner hook)
    end.
Proof. reflexivity. Qed.

Lemma visitsOf_app o t1 t2 :
  visitsOf o (t1 ++ t2) = visitsOf o t1 ++ visitsOf o t2.
Proof. apply omap_app. Qed.

Lemma visitsOf_quiet o t : quiet t → visitsOf o t = [].
Proof.
  induction 1 as [|ev t Hev _ IH]; [done|].
  destruct ev; [|done]. exact IH.
Qed.

Lemma visitsOf_forEach o owner visited t :
  visitsOf o (HookCall owner (ForEachExtension visited) :: t) =
    (if decide (owner = o) then [visited] else []) ++ visitsOf o t.
Proof. unfold visitsOf. simpl. by case_decide. Qed.

(** The harvest loop of one requester leaves, under its own name, a
    prefix of the names of the list it was handed: the whole list when it
    has a [forEachExtension] handler and the loop returns. *)
Lemma harvest_visits owner (h : Handlers) (reachable : closure h → Prop)
    visited c o :
  (∀ f c e,
     forEachExtension h = Some f → reachable c →
     quiet (trace (f c e))
     ∧ ∀ c', completion (f c e) = Normal c' → reachable c') →
  reachable c →
  (o ≠ owner → visitsOf o (trace (harvest owner h c visited)) = [])
  ∧ visitsOf owner (trace (harvest owner h c visited))
      `prefix_of` ((λ e : Extension, name e) <$> visited)
  ∧ (∀ c', completion (harvest owner h c visited) = Normal c' →
       reachable c'
       ∧ (is_Some (forEachExtension h) →
          visitsOf owner (trace (harvest owner h c visited)) =
            (λ e : Extension, name e) <$> visited)).
Proof.
  intros Hh. revert c. induction visited as [|e es IH]; intros c Hc.
  { cbn [harvest]. split; [done|]. split; [done|].
    intros c' [= <-]. done. }
  cbn [harvest]. destruct (forEachExtension h) as [f|] eqn:Hf.
  2:{ split; [done|]. split; [apply prefix_nil|].
      intros c' [= <-]. split; [done|]. by intros [? ?]. }
  destruct (Hh f c e eq_refl Hc) as [Hq Hr].
  rewrite trace_bind, completion_bind, completion_callHook, trace_callHook.
  rewrite !visitsOf_app, !visitsOf_forEach, !(visitsOf_quiet _ _ Hq).
  destruct (completion (f c e)) as [c1|err] eqn:Hc1.
  - destruct (IH c1 (Hr c1 eq_refl)) as (IH1 & IH2 & IH3).
    split; [|split].
    + intros Hne. rewrite decide_False by done. simpl. by apply IH1.
    + rewrite decide_True by done. simpl. by apply prefix_cons.
    + intros c' Hc'. destruct (IH3 c' Hc') as [? Heq]. split; [done|].
      intros Hs. rewrite decide_True by done. simpl. by rewrite Heq.
  - split; [|split].
    + intros Hne. by rewrite decide_False.
    + rewrite decide_True by done. simpl. apply prefix_cons, prefix_nil.
    + done.
Qed.

(** One extension's turn leaves visits under its own name only. *)
Lemma initializeExtension_visits p visited r o :
  wellBehaved p r →
  (o ≠ nameOf r → visitsOf o (trace (initializeExtension p visited r)) = [])
  ∧ visitsOf (nameOf r) (trace (initializeExtension p visited r))
      `prefix_of` ((λ e : Extension, name e) <$> visited)
  ∧ (∀ init f,
       onInitialize r = Some init → forEachExtension (init p) = Some f →
       completion (initializeExtension p visited r) = Normal tt →
       visitsOf (nameOf r) (trace (initializeExtension p visited r)) =
         (λ e : Extension, name e) <$> visited).
Proof.
  intros Hwb. unfold initializeExtension, nameOf.
  destruct (onInitialize r) as [init|] eqn:Hinit.
  2:{ split; [done|]. split; [apply prefix_nil|]. done. }
  destruct (Hwb init Hinit) as (reachable & H0 & Hfe & Hafter).
  destruct (harvest_visits (name r) (init p) reachable visited
              (initial (init p)) o Hfe H0) as (Hv1 & Hv2 & Hv3).
  assert (∀ c, reachable c →
            visitsOf o
              (trace match afterExtensionLoop (init p) with
                     | Some after =>
                         callHook (name r) AfterExtensionLoop (after c)
                     | None => mret ()
                     end) = []) as Hflush.
  { intros c Hc. destruct (afterExtensionLoop (init p)) as [g|] eqn:Hg; [|done].
    rewrite trace_callHook. change (visitsOf o (trace (g c)) = []).
    apply visitsOf_quiet. by eapply Hafter. }
  assert (∀ c, reachable c →
            visitsOf (name r)
              (trace match afterExtensionLoop (init p) with
                     | Some after =>
                         callHook (name r) AfterExtensionLoop (after c)
                     | None => mret ()
                     end) = []) as Hflush'.
  { intros c Hc. destruct (afterExtensionLoop (init p)) as [g|] eqn:Hg; [|done].
    rewrite trace_callHook.
    change (visitsOf (name r) (trace (g c)) = []).
    apply visitsOf_quiet. by eapply Hafter. }
  rewrite !trace_bind, !completion_bind. simpl.
  destruct (completion (harvest (name r) (init p) (initial (init p)) visited))
    as [c1|err] eqn:Hc1.
  - destruct (Hv3 c1 eq_refl) as [Hr1 Heq].
    rewrite !visitsOf_app, Hflush, Hflush', !app_nil_r by done.
    split; [done|]. split; [done|].
    intros init' f [= <-] Hf _. apply Heq. eauto.
  - rewrite !app_nil_r. split; [done|]. split; [done|]. done.
Qed.

(** The initialization pass over requesters with distinct names, each
    handed the same list: every requester's visits are a prefix of that
    list, the whole of it when the pass returns. *)
Lemma runAll_visits p visited rs :
  Forall (wellBehaved p) rs →
  NoDup (nameOf <$> rs) →
  (∀ o, (∀ r, r ∈ rs → nameOf r ≠ o) →
     visitsOf o (trace (runAll p ((λ r, (r, visited)) <$> rs))) = [])
  ∧ (∀ r, r ∈ rs →
       visitsOf (nameOf r) (trace (runAll p ((λ r, (r, visited)) <$> rs)))
         `prefix_of` ((λ e : Extension, name e) <$> visited)
       ∧ (∀ init f,
            onInitialize r = Some init → forEachExtension (init p) = Some f →
            completion (runAll p ((λ r, (r, visited)) <$> rs)) = Normal tt →
            visitsOf (nameOf r)
              (trace (runAll p ((λ r, (r, visited)) <$> rs))) =
              (λ e : Extension, name e) <$> visited)).
Proof.
  induction rs as [|r1 rs IH]; intros Hwb Hnd.
  { split; [done|]. intros r Hr. by apply elem_of_nil in Hr. }
  apply Forall_cons in Hwb as [Hwb1 Hwb].
  rewrite fmap_cons in Hnd. apply NoDup_cons in Hnd as [Hnotin Hnd].
  destruct (IH Hwb Hnd) as [IHa IHb].
  cbn [fmap list_fmap runAll].
  rewrite trace_bind, completion_bind.
  split.
  - intros o Ho. rewrite visitsOf_app.
    destruct (initializeExtension_visits p visited r1 o Hwb1) as (H1 & _ & _).
    rewrite H1 by (apply not_eq_sym, Ho; by left).
    destruct (completion (initializeExtension p visited r1)) as [[]|]; [|done].
    apply IHa. intros r Hr. apply Ho. by right.
  - intros r [->|Hr]%elem_of_cons.
    + destruct (initializeExtension_visits p visited r1 (nameOf r1) Hwb1)
        as (_ & H2 & H3).
      assert (∀ r', r' ∈ rs → nameOf r' ≠ nameOf r1) as Hother.
      { intros r' Hr' Heq. apply Hnotin. rewrite <-Heq.
        apply list_elem_of_fmap. eauto. }
      rewrite visitsOf_app.
      destruct (completion (initializeExtension p visited r1)) as [[]|] eqn:Hc.
      * rewrite (IHa _ Hother), app_nil_r. split; [done|].
        intros init f Hi Hf _. by eapply H3.
      * rewrite app_nil_r. split; [done|]. done.
    + assert (nameOf r ≠ nameOf r1) as Hne.
      { intros Heq. apply Hnotin. rewrite <-Heq.
        apply list_elem_of_fmap. eauto. }
      destruct (initializeExtension_visits p visited r1 (nameOf r) Hwb1)
        as (H1 & _ & _).
      rewrite visitsOf_app, (H1 Hne). simpl.
      destruct (completion (initializeExtension p visited r1)) as [[]|].
      * by apply IHb.
      * split; [apply prefix_nil|done].
Qed.

(** The aggregator leaves nothing but its one [addPlugins] call. *)
Lemma aggregator_wellBehaved settings getParameter Low s :
  wellBehaved (initializeParameter settings getParameter)
    (NodeViews.NodeViewsExtension Low s).
Proof.
  intros init [= <-].
  exists (λ c, NodeViews.initializeParameter c =
               initializeParameter settings getParameter).
  split; [done|]. split.
  - intros f c e [= <-] Hc. change (closure _) with NodeViews.Closure in *.
    rewrite forEachExtension_cases.
    destruct (decide (skipped _ e)); [|destruct (ExtensionSettings.exclude _)];
      simpl; (split; [by constructor|]); intros c' [= <-]; done.
  - intros g c [= <-] Hc. unfold NodeViews.afterExtensionLoop.
    rewrite Hc. simpl. by repeat constructor.
Qed.

(** C5.  For a valid set of registered extensions (no two share a name)
    the order in which the manager visits them is a rearrangement of the
    registered list in which an extension comes before another exactly as
    its priority is lower or, at equal priority, as it was registered
    earlier, and it is the only such rearrangement.  In the trace of the
    manager's construction, the [forEachExtension] calls of every
    requesting extension name the extensions of that list in that order:
    a prefix of it when a hook throws on the way, the whole list when the
    construction returns, and the manager then holds the extensions in
    that order.  (The hooks are taken to leave only [addPlugins] calls in
    the trace.) *)
Theorem visit_order_is_priority_sort settings getParameter extensions :
  NoDup (nameOf <$> extensions) →
  Forall (wellBehaved (initializeParameter settings getParameter)) extensions →
  let sorted := sortExtensions extensions in
  let run := create settings getParameter extensions in
  sorted ≡ₚ extensions
  ∧ inPriorityOrder extensions sorted
  ∧ (∀ l, l ≡ₚ extensions → inPriorityOrder extensions l → l = sorted)
  ∧ (∀ r init f,
       r ∈ extensions →
       onInitialize r = Some init →
       forEachExtension (init (initializeParameter settings getParameter))
         = Some f →
       visitsOf (nameOf r) (trace run) `prefix_of` (nameOf <$> sorted)
       ∧ ∀ m, completion run = Normal m →
           visitsOf (nameOf r) (trace run) = nameOf <$> sorted
           ∧ Manager.extensions m = sorted).
Proof.
  intros Hnd Hwb sorted run.
  assert (sorted ≡ₚ extensions) as Hp by apply sortExtensions_Permutation.
  assert (inPriorityOrder extensions sorted) as Ho
    by (by apply sortExtensions_inPriorityOrder).
  split; [done|]. split; [done|]. split.
  { intros l Hl Hol. by apply (inPriorityOrder_unique extensions). }
  intros r init f Hr Hinit Hf.
  assert ((λ e : Extension, name e) <$> (extension <$> sorted) =
          nameOf <$> sorted) as Hnames.
  { rewrite <-list_fmap_compose. done. }
  destruct (runAll_visits (initializeParameter settings getParameter)
              (extension <$> sorted) sorted) as [_ Hv].
  { by rewrite Hp. }
  { by rewrite Hp. }
  destruct (Hv r) as [Hpre Heq]; [by rewrite Hp|].
  rewrite Hnames in Hpre, Heq.
  subst run. unfold create. rewrite decide_True by done.
  fold sorted. unfold schedule.
  rewrite trace_bind, completion_bind.
  destruct (completion (runAll _ _)) as [[]|err] eqn:Hc; simpl;
    rewrite app_nil_r.
  - split; [done|]. intros m [= <-]. split; [|done]. by eapply Heq.
  - split; [done|]. done.
Qed.

Lemma visit_order_is_priority_sort_witness :
  visitsOf "inputRules"
    (trace
       (create Sample.noManagerExcludes Sample.typeParameter
          [NodeViews.NodeViewsExtension Sample.Low Sample.noExcludes;
           Sample.Bold; Sample.Heading])) =
  nameOf <$>
    sortExtensions
      [NodeViews.NodeViewsExtension Sample.Low Sample.noExcludes;
       Sample.Bold; Sample.Heading]
  ∧ Manager.extensions
      {| Manager.extensions :=
           sortExtensions
             [NodeViews.NodeViewsExtension Sample.Low Sample.noExcludes;
              Sample.Bold; Sample.Heading];
         plugins :=
           [ProseMirror.inputRules
              {| rules := Sample.boldRules ++ Sample.headingRules |}] |} =
    sortExtensions
      [NodeViews.NodeViewsExtension Sample.Low Sample.noExcludes;
       Sample.Bold; Sample.Heading].
Proof.
  pose proof (visit_order_is_priority_sort Sample.noManagerExcludes
                Sample.typeParameter
                [NodeViews.NodeViewsExtension Sample.Low Sample.noExcludes;
                 Sample.Bold; Sample.Heading]) as H.
  cbv zeta in H. destruct H as (_ & _ & _ & H).
  - apply (bool_decide_unpack _). vm_compute. exact I.
  - repeat constructor.
    + apply aggregator_wellBehaved.
    + intros init Hinit. discriminate Hinit.
    + intros init Hinit. discriminate Hinit.
  - destruct (H (NodeViews.NodeViewsExtension Sample.Low Sample.noExcludes)
                NodeViews.handlers NodeViews.forEachExtension) as [_ H'].
    + apply list_elem_of_here.
    + reflexivity.
    + reflexivity.
    + apply H'. vm_compute. reflexivity.
Defined.

(** C7.  When two of the registered extensions share a name, constructing
    the manager throws a [ConfigurationError] and its trace is empty: no
    hook has been called and no plugin registered. *)
Theorem duplicate_name_rejected settings getParameter
    (extensions : list RegisteredExtension) (i j : nat)
    (a b : RegisteredExtension) :
  i ≠ j →
  extensions !! i = Some a → extensions !! j = Some b →
  name a = name b →
  create settings getParameter extensions = MkEff [] (Throw ConfigurationError).
Proof.
  intros Hij Hi Hj Hname. unfold create.
  rewrite decide_False; [done|].
  intros Hnd. apply Hij.
  apply (NoDup_lookup _ i j (nameOf a) Hnd); rewrite list_lookup_fmap.
  - by rewrite Hi.
  - rewrite Hj. simpl. unfold nameOf. by rewrite Hname.
Qed.

Lemma duplicate_name_rejected_witness :
  create Sample.noManagerExcludes Sample.typeParameter
    [Sample.Bold; Sample.Heading; Sample.Bold] =
  MkEff [] (Throw ConfigurationError).
Proof.
  apply (duplicate_name_rejected Sample.noManagerExcludes Sample.typeParameter
           [Sample.Bold; Sample.Heading; Sample.Bold] 0 2 Sample.Bold Sample.Bold);
    [lia | reflexivity | reflexivity | reflexivity].
Defined.

End ManagerProperties.

(** ** The menu bar *)
Section MenuProperties.
Import WysiwygMenu.

Lemma getButtonState_active active inverse :
  (getButtonState active inverse = active_default
   ∨ getButtonState active inverse = active_inverse) ↔ active = true.
Proof.
  unfold getButtonState. destruct active, inverse as [[]|]; simpl; naive_solver.
Qed.

(** C9.  For every entry of [menuItems], the [MenuItem] rendered at the
    entry's position is disabled exactly when the entry's action is not
    enabled, and its state is one of the two active variants exactly when
    the action's [isActive] holds of the entry's attrs; the button the item
    renders carries the same flag and state. *)
Theorem MenuBar_reflects_predicates (actions : Actions) (inverse : option bool)
    (i : nat) name Icon subText attrs :
  menuItems !! i = Some (name, (Icon, subText), attrs) →
  ∃ item,
    MenuBar actions inverse !! i = Some item
    ∧ disabled item = Some (negb (isEnabled (actions name) ()))
    ∧ ((state item = active_default ∨ state item = active_inverse) ↔
         isActive (actions name) attrs = true)
    ∧ button_disabled (MenuItem item) = negb (isEnabled (actions name) ())
    ∧ button_state (MenuItem item) = state item.
Proof.
  intros Hi. unfold MenuBar.
  rewrite lookup_app_l
    by (rewrite length_imap; by eapply lookup_lt_Some).
  rewrite list_lookup_imap, Hi. simpl.
  eexists. split; [reflexivity|]. simpl.
  split; [done|]. split; [apply getButtonState_active|done].
Qed.

Lemma MenuBar_reflects_predicates_witness :
  ∃ item,
    MenuBar (λ _, {| isActive := λ attrs, bool_decide (attrs = Some [("level", 2%Z)]);
                     isEnabled := λ _, true |}) None !! 5 = Some item
    ∧ disabled item = Some (negb true)
    ∧ ((state item = active_default ∨ state item = active_inverse) ↔
         bool_decide (Some [("level", 2%Z)] = Some [("level", 2%Z)]) = true)
    ∧ button_disabled (MenuItem item) = negb true
    ∧ button_state (MenuItem item) = state item.
Proof.
  apply (MenuBar_reflects_predicates
    (λ _, {| isActive := λ attrs, bool_decide (attrs = Some [("level", 2%Z)]);
             isEnabled := λ _, true |}) None 5 toggleHeading H2Icon (Some "2")
    (Some [("level", 2%Z)])).
  reflexivity.
Defined.

End MenuProperties.

(** ** The manager and the aggregator together *)
Section EndToEnd.
Import ProseMirror Effect Core Rule Manager.

Lemma callHook_ret {A} owner hook (a : A) :
  callHook owner hook (mret a) = MkEff [HookCall owner hook] (Normal a).
Proof. reflexivity. Qed.

(** The manager's harvest loop run on the aggregator's handlers records one
    [forEachExtension] call per visited extension and ends with the
    accumulator [NodeViews.visit] computes. *)
Lemma harvest_aggregator owner p (c : NodeViews.Closure) visited :
  ¬ Exists (faults (NodeViews.initializeParameter c)) visited →
  harvest owner (NodeViews.handlers p) c visited =
    MkEff ((λ e : Extension, HookCall owner (ForEachExtension (name e)))
             <$> visited)
          (Normal (NodeViews.push c
                     (harvested (NodeViews.initializeParameter c) visited))).
Proof.
  revert c. induction visited as [|e es IH]; intros c Hnf.
  { simpl. unfold harvested. simpl. by rewrite push_nil. }
  rewrite Exists_cons in Hnf.
  assert (¬ faults (NodeViews.initializeParameter c) e) as He by tauto.
  assert (¬ Exists (faults (NodeViews.initializeParameter c)) es) as Hes
    by tauto.
  cbn [harvest NodeViews.handlers Core.forEachExtension].
  rewrite forEachExtension_cases.
  assert (NodeViews.forEachExtension c e =
          mret (NodeViews.push c
                  (contribution (NodeViews.initializeParameter c) e))) as Hv.
  { rewrite forEachExtension_cases.
    destruct (decide (skipped _ e)) as [Hs|Hs].
    - unfold contribution. by rewrite decide_True, push_nil.
    - destruct (ExtensionSettings.exclude (settings e)) eqn:Hex; [done|].
      exfalso. apply He, faults_iff. done. }
  rewrite <-forEachExtension_cases, Hv, callHook_ret.
  erewrite bind_normal by reflexivity.
  rewrite IH by (by rewrite push_parameter).
  simpl. by rewrite push_push.
Qed.

(** The aggregator's turn in the manager's initialization pass: its three
    hooks are called, and what it registers is what [NodeViews.initialize]
    registers. *)
Lemma initializeExtension_aggregator settings getParameter Low s visited :
  let p := initializeParameter settings getParameter in
  Forall hasExclude visited →
  initializeExtension p visited (NodeViews.NodeViewsExtension Low s) =
    MkEff
      (HookCall "inputRules" OnInitialize
       :: ((λ e : Extension, HookCall "inputRules" (ForEachExtension (name e)))
             <$> visited)
       ++ HookCall "inputRules" AfterExtensionLoop
       :: trace (NodeViews.initialize p visited))
      (Normal tt).
Proof.
  intros p Hwf. unfold initializeExtension.
  cbn [Core.onInitialize NodeViews.NodeViewsExtension].
  rewrite initialize_cases, decide_False by (by apply hasExclude_no_fault).
  cbn [name self extension NodeViews.NodeViewsExtension].
  cbn [initial NodeViews.handlers Core.afterExtensionLoop].
  rewrite harvest_aggregator by (by apply hasExclude_no_fault).
  reflexivity.
Qed.

(** Bold, Heading and the aggregator, registered in that order: the
    aggregator's three hooks run, it visits the three extensions in sorted
    order, and the manager ends with one plugin holding Bold's rules
    followed by Heading's. *)
Example create_bold_heading_aggregator :
  create Sample.noManagerExcludes Sample.typeParameter
    [Sample.Bold; Sample.Heading;
     NodeViews.NodeViewsExtension Sample.Low Sample.noExcludes] =
  MkEff
    [HookCall "inputRules" OnInitialize;
     HookCall "inputRules" (ForEachExtension "bold");
     HookCall "inputRules" (ForEachExtension "heading");
     HookCall "inputRules" (ForEachExtension "inputRules");
     HookCall "inputRules" AfterExtensionLoop;
     AddPlugins
       [ProseMirror.inputRules
          {| rules := Sample.boldRules ++ Sample.headingRules |}]]
    (Normal
       {| extensions :=
            [Sample.Bold; Sample.Heading;
             NodeViews.NodeViewsExtension Sample.Low Sample.noExcludes];
          plugins :=
            [ProseMirror.inputRules
               {| rules := Sample.boldRules ++ Sample.headingRules |}] |}).
Proof. vm_compute. reflexivity. Qed.

(** The same registration with [inputRules] excluded manager-wide: the one
    plugin has no rules. *)
Example create_with_inputRules_excluded :
  plugins <$>
    match completion
            (create Sample.excludeInputRules Sample.typeParameter
               [Sample.Bold; Sample.Heading;
                NodeViews.NodeViewsExtension Sample.Low Sample.noExcludes])
    with
    | Normal m => Some m
    | Throw _ => None
    end =
  Some [ProseMirror.inputRules {| rules := [] |}].
Proof. vm_compute. reflexivity. Qed.

(** An extension with [createNodeViews] whose settings carry no [exclude]
    object: the aggregator's visit of it throws, and the manager reports the
    aggregator and the hook. *)
Example create_with_bare_extension :
  create Sample.noManagerExcludes Sample.typeParameter
    [Sample.Bare; NodeViews.NodeViewsExtension Sample.Low Sample.noExcludes] =
  MkEff
    [HookCall "inputRules" OnInitialize;
     HookCall "inputRules" (ForEachExtension "bare")]
    (Throw (InitializationError "inputRules" (ForEachExtension "bare"))).
Proof. vm_compute. reflexivity. Qed.

End EndToEnd.

(** ** More on the aggregator *)
Section AggregatorMore.
Import ProseMirror Effect Core NodeViews Rule.

#[local] Instance faults_dec p e : Decision (faults p e).
Proof. unfold faults, hasExclude. apply _. Defined.

Lemma faults_not_skipped p e : faults p e → ¬ skipped p e.
Proof. rewrite faults_iff. tauto. Qed.

Lemma skipped_contribution p e : skipped p e → contribution p e = [].
Proof. intros Hs. unfold contribution. by rewrite decide_True. Qed.

(** X1.  A visit never calls [addPlugins] and never touches what was
    already harvested: whenever [forEachExtension] returns, and whenever the
    loop over a list returns, the captured parameter is the same and the
    old rule list is a prefix of the new one. *)
Theorem visit_only_appends c :
  (∀ extension,
     trace (forEachExtension c extension) = []
     ∧ ∀ c', completion (forEachExtension c extension) = Normal c' →
         initializeParameter c' = initializeParameter c
         ∧ rules c `prefix_of` rules c')
  ∧ (∀ extensions,
     trace (visit c extensions) = []
     ∧ ∀ c', completion (visit c extensions) = Normal c' →
         initializeParameter c' = initializeParameter c
         ∧ rules c `prefix_of` rules c').
Proof.
  split.
  - intros e. rewrite forEachExtension_cases.
    destruct (decide (skipped _ e)); [|destruct (ExtensionSettings.exclude _)];
      simpl; (split; [done|]); intros c' [= <-]; (split; [done|]).
    + done.
    + by apply prefix_app_r.
  - intros es. rewrite visit_cases. case_decide; simpl.
    + done.
    + split; [done|]. intros c' [= <-]. split; [done|]. by apply prefix_app_r.
Qed.

Lemma visit_only_appends_witness :
  initializeParameter
    {| initializeParameter :=
         Manager.initializeParameter Sample.noManagerExcludes Sample.typeParameter;
       rules := Sample.headingRules ++ Sample.boldRules |} =
  initializeParameter
    {| initializeParameter :=
         Manager.initializeParameter Sample.noManagerExcludes Sample.typeParameter;
       rules := Sample.headingRules |}
  ∧ rules
      {| initializeParameter :=
           Manager.initializeParameter Sample.noManagerExcludes
             Sample.typeParameter;
         rules := Sample.headingRules |}
    `prefix_of` Sample.headingRules ++ Sample.boldRules.
Proof.
  apply (proj1 (visit_only_appends
    {| initializeParameter :=
         Manager.initializeParameter Sample.noManagerExcludes Sample.typeParameter;
       rules := Sample.headingRules |}) Sample.Bold).
  reflexivity.
Defined.

(** X2.  One visited extension that implements [createNodeViews] while its
    settings carry no [exclude] object, under manager settings that do not
    exclude [inputRules], makes the whole run throw a [TypeError] without
    any [addPlugins] call: what was harvested from the extensions before it
    is not registered. *)
Theorem fault_registers_nothing p before bad after f :
  ¬ managerExcludes p →
  createNodeViews (parameter bad) = Some f →
  ExtensionSettings.exclude (settings bad) = None →
  initialize p (before ++ bad :: after) = MkEff [] (Throw TypeError)
  ∧ ruleSequence p (before ++ bad :: after) = Throw TypeError.
Proof.
  intros Ha Hf Hex.
  assert (Exists (faults p) (before ++ bad :: after)) as HE.
  { apply Exists_app. right. apply Exists_cons_hd.
    repeat split; [done| |].
    - unfold lacksHook. by rewrite Hf.
    - unfold hasExclude. rewrite Hex. by intros [? ?]. }
  split.
  - by rewrite initialize_cases, decide_True.
  - unfold ruleSequence. by rewrite visit_onInitialize, decide_True.
Qed.

Lemma fault_registers_nothing_witness :
  initialize
    (Manager.initializeParameter Sample.noManagerExcludes Sample.typeParameter)
    ([extension Sample.Bold] ++ extension Sample.Bare
       :: [extension Sample.Heading]) = MkEff [] (Throw TypeError)
  ∧ ruleSequence
      (Manager.initializeParameter Sample.noManagerExcludes Sample.typeParameter)
      ([extension Sample.Bold] ++ extension Sample.Bare
         :: [extension Sample.Heading]) = Throw TypeError.
Proof.
  apply (fault_registers_nothing
    (Manager.initializeParameter Sample.noManagerExcludes Sample.typeParameter)
    [extension Sample.Bold] Sample.Bare [extension Sample.Heading]
    (λ _ _, Sample.boldRules)).
  - vm_compute. discriminate.
  - reflexivity.
  - reflexivity.
Defined.

Lemma harvested_filter p extensions :
  harvested p (filter (λ e, ¬ skipped p e) extensions) = harvested p extensions.
Proof.
  induction extensions as [|e es IH]; [done|].
  rewrite filter_cons. destruct (decide (skipped p e)) as [Hs|Hs].
  - rewrite decide_False by tauto.
    by rewrite harvested_cons, skipped_contribution, IH.
  - rewrite decide_True by done. by rewrite !harvested_cons, IH.
Qed.

Lemma faults_filter p extensions :
  Exists (faults p) (filter (λ e, ¬ skipped p e) extensions)
  ↔ Exists (faults p) extensions.
Proof.
  rewrite !Exists_exists. split.
  - intros (e & [_ He]%list_elem_of_filter & Hf). eauto.
  - intros (e & He & Hf). exists e. split; [|done].
    apply list_elem_of_filter. split; [|done]. by apply faults_not_skipped.
Qed.

(** X3.  Extensions that are skipped do not matter to a run: the loop over
    a list and the loop over the list with every skipped extension taken
    out end in the same way, and so does the whole initialization. *)
Theorem skipped_extensions_invisible p extensions :
  visit (onInitialize p) extensions =
    visit (onInitialize p) (filter (λ e, ¬ skipped p e) extensions)
  ∧ initialize p extensions =
      initialize p (filter (λ e, ¬ skipped p e) extensions).
Proof.
  rewrite !visit_onInitialize, !initialize_cases, harvested_filter.
  destruct (decide (Exists (faults p) extensions)) as [H|H].
  - by rewrite !decide_True by (by apply faults_filter).
  - by rewrite !decide_False by (by rewrite faults_filter).
Qed.

Lemma harvested_Permutation p l1 l2 :
  l1 ≡ₚ l2 → harvested p l1 ≡ₚ harvested p l2.
Proof.
  induction 1 as [|e l1 l2 _ IH|e1 e2 l|l1 l2 l3 _ IH1 _ IH2].
  - done.
  - rewrite !harvested_cons. by rewrite IH.
  - rewrite !harvested_cons, !app_assoc.
    by rewrite (Permutation_app_comm (contribution p e2)).
  - by rewrite IH1.
Qed.

(** X4.  The visit order decides the sequence of the harvested rules and
    nothing else: over two lists with the same extensions in different
    orders the runs either both throw, or both return, with rule lists
    that are rearrangements of each other. *)
Theorem visit_order_permutes_rules p l1 l2 :
  l1 ≡ₚ l2 →
  match ruleSequence p l1, ruleSequence p l2 with
  | Normal r1, Normal r2 => r1 ≡ₚ r2
  | Throw e1, Throw e2 => e1 = e2
  | _, _ => False
  end.
Proof.
  intros Hp. unfold ruleSequence. rewrite !visit_onInitialize.
  destruct (decide (Exists (faults p) l1)) as [H|H].
  - rewrite decide_True by (by rewrite <-Hp). done.
  - rewrite decide_False by (by rewrite <-Hp). simpl.
    by apply harvested_Permutation.
Qed.

Lemma visit_order_permutes_rules_witness :
  Sample.boldRules ++ Sample.headingRules
  ≡ₚ Sample.headingRules ++ Sample.boldRules.
Proof.
  apply (visit_order_permutes_rules
    (Manager.initializeParameter Sample.noManagerExcludes Sample.typeParameter)
    [extension Sample.Bold; extension Sample.Heading]
    [extension Sample.Heading; extension Sample.Bold]).
  apply perm_swap.
Defined.

(** X5.  Harvesting composes over concatenation: the run over [l1 ++ l2]
    returns exactly when the runs over [l1] and over [l2] both return, and
    then its rule list is the rules of [l1] followed by the rules of
    [l2]. *)
Theorem ruleSequence_app p l1 l2 :
  ruleSequence p (l1 ++ l2) =
    match ruleSequence p l1, ruleSequence p l2 with
    | Normal r1, Normal r2 => Normal (r1 ++ r2)
    | Throw e, _ => Throw e
    | _, Throw e => Throw e
    end.
Proof.
  unfold ruleSequence. rewrite !visit_onInitialize.
  destruct (decide (Exists (faults p) l1)) as [H1|H1];
    destruct (decide (Exists (faults p) l2)) as [H2|H2]; simpl.
  - rewrite decide_True; [done|]. apply Exists_app. by left.
  - rewrite decide_True; [done|]. apply Exists_app. by left.
  - rewrite decide_True; [done|]. apply Exists_app. by right.
  - rewrite decide_False by (rewrite Exists_app; tauto).
    simpl. by rewrite harvested_app.
Qed.

End AggregatorMore.

(** ** More on the menus *)
Section MenuMore.
Import WysiwygMenu WysiwygBubble.

Lemma getButtonState_inverse active inverse :
  (getButtonState active inverse = inverse_
   ∨ getButtonState active inverse = active_inverse) ↔
  default false inverse = true.
Proof.
  unfold getButtonState. destruct active, inverse as [[]|]; simpl;
    (split; [intros [?|?]; done | try done; eauto]).
Qed.

(** X6.  The four button states tell the four combinations apart: two
    calls of [getButtonState] give the same state exactly when they agree
    on [active] and on [inverse] (an absent [inverse] counting as [false]);
    and the state is one of the inverse variants exactly when [inverse] is
    [true]. *)
Theorem getButtonState_inj active1 inverse1 active2 inverse2 :
  (getButtonState active1 inverse1 = getButtonState active2 inverse2 ↔
     active1 = active2 ∧ default false inverse1 = default false inverse2)
  ∧ ((getButtonState active1 inverse1 = inverse_
      ∨ getButtonState active1 inverse1 = active_inverse) ↔
     default false inverse1 = true).
Proof.
  unfold getButtonState.
  destruct active1, active2, inverse1 as [[]|], inverse2 as [[]|]; simpl;
    (split; split; try done; try (intros [? ?]; done);
     try (intros [?|?]; done); eauto).
Qed.

Lemma MenuBar_lookup (actions : Actions) inverse (i : nat) name Icon subText attrs :
  menuItems !! i = Some (name, (Icon, subText), attrs) →
  MenuBar actions inverse !! i =
    Some {| index := Some i;
            WysiwygMenu.Icon := Icon;
            subText := subText;
            state := getButtonState (isActive (actions name) attrs) inverse;
            disabled := Some (negb (isEnabled (actions name) ()));
            onClick := runAction name attrs;
            withPadding := Some right_;
            WysiwygMenu.inverse := None |}.
Proof.
  intros Hi. unfold MenuBar.
  rewrite lookup_app_l by (rewrite length_imap; by eapply lookup_lt_Some).
  by rewrite list_lookup_imap, Hi.
Qed.

(** X10.  The menu bar never renders an inverse icon, whatever its
    [inverse] prop: the prop only selects the button states, which are the
    inverse variants exactly when it is [true]; every item is padded on the
    right. *)
Theorem MenuBar_icons_never_inverse (actions : Actions) inverse item :
  item ∈ MenuBar actions inverse →
  icon_inverse (MenuItem item) = false
  ∧ button_withPadding (MenuItem item) = Some right_
  ∧ ((button_state (MenuItem item) = inverse_
      ∨ button_state (MenuItem item) = active_inverse) ↔
     default false inverse = true).
Proof.
  intros [i Hi]%list_elem_of_lookup_1.
  destruct (decide (i < length menuItems)) as [Hlt|Hge].
  - destruct (menuItems !! i) as [[[name [Icon subText]] attrs]|] eqn:He.
    + rewrite (MenuBar_lookup _ _ _ _ _ _ _ He) in Hi. injection Hi as <-.
      simpl. split; [done|]. split; [done|]. apply getButtonState_inverse.
    + apply lookup_ge_None in He. lia.
  - unfold MenuBar in Hi.
    rewrite lookup_app_r in Hi by (rewrite length_imap; lia).
    rewrite length_imap in Hi.
    destruct (i - length menuItems) as [|n]; simpl in Hi; [|done].
    injection Hi as <-. simpl.
    split; [done|]. split; [done|]. apply getButtonState_inverse.
Qed.

Lemma MenuBar_icons_never_inverse_witness :
  icon_inverse
    (MenuItem
       {| index := Some 0; Icon := BoldIcon; subText := None;
          state := active_inverse; disabled := Some false;
          onClick := runAction bold None; withPadding := Some right_;
          inverse := None |}) = false
  ∧ button_withPadding
      (MenuItem
         {| index := Some 0; Icon := BoldIcon; subText := None;
            state := active_inverse; disabled := Some false;
            onClick := runAction bold None; withPadding := Some right_;
            inverse := None |}) = Some right_
  ∧ ((button_state
        (MenuItem
           {| index := Some 0; Icon := BoldIcon; subText := None;
              state := active_inverse; disabled := Some false;
              onClick := runAction bold None; withPadding := Some right_;
              inverse := None |}) = inverse_
      ∨ button_state
          (MenuItem
             {| index := Some 0; Icon := BoldIcon; subText := None;
                state := active_inverse; disabled := Some false;
                onClick := runAction bold None; withPadding := Some right_;
                inverse := None |}) = active_inverse) ↔
     default false (Some true) = true).
Proof.
  apply (MenuBar_icons_never_inverse
    (λ _, {| isActive := λ _, true; isEnabled := λ _, true |}) (Some true)).
  apply list_elem_of_here.
Defined.

End MenuMore.

(** ** The bubble menu and the link input *)
Section BubbleMore.
Import WysiwygMenu WysiwygBubble.
Context {Params Rest Number Ref : Type}.
Context (add : Number → Number → Number) (five : Number).
Context (remirror : @Remirror Params Rest Number Ref).
Context (bubblePositioner : Positioner.t Params Rest).

Lemma BubbleMenu_items linkActivated :
  default false linkActivated = false →
  child (BubbleMenu add five remirror bubblePositioner linkActivated) =
    bubbleContent
      (imap (λ (_ : nat) '(name, (Icon, subText), attrs),
               {| Icon := Icon;
                  subText := subText;
                  state := getButtonState
                             (isActive (actions remirror name) attrs) (Some true);
                  disabled := Some (negb (isEnabled (actions remirror name) ()));
                  onClick := runAction name attrs;
                  inverse := Some true;
                  withPadding := Some horizontal;
                  index := None |})
            bubbleMenuItems
       ++ [ {| Icon := LinkIcon;
               state := getButtonState
                          (isActive (actions remirror WysiwygMenu.updateLink) None)
                          (Some true);
               onClick := activateLink;
               inverse := Some true;
               withPadding := Some horizontal;
               disabled := None; subText := None; index := None |} ]).
Proof. intros H. unfold BubbleMenu. by rewrite H. Qed.

(** X9.  While the link input is not activated, the bubble menu renders,
    for every entry of [bubbleMenuItems], an item that is disabled exactly
    when the entry's action is not enabled, whose state is ['active-inverse']
    when the action is active for the entry's attrs and ['inverse']
    otherwise, and which shows the entry's icon. *)
Theorem BubbleMenu_reflects_predicates linkActivated (i : nat)
    name Icon subText attrs :
  default false linkActivated = false →
  bubbleMenuItems !! i = Some (name, (Icon, subText), attrs) →
  ∃ items item,
    child (BubbleMenu add five remirror bubblePositioner linkActivated) =
      bubbleContent items
    ∧ items !! i = Some item
    ∧ button_disabled (MenuItem item) =
        negb (isEnabled (actions remirror name) ())
    ∧ button_state (MenuItem item) =
        (if isActive (actions remirror name) attrs
         then active_inverse else inverse_)
    ∧ icon (MenuItem item) = Icon.
Proof.
  intros Hl Hi. eexists _, _. split; [by apply BubbleMenu_items|].
  split.
  { rewrite lookup_app_l by (rewrite length_imap; by eapply lookup_lt_Some).
    by rewrite list_lookup_imap, Hi. }
  simpl. repeat split.
Qed.

(** X8.  The two menus treat their link item differently.  In the menu bar
    it is the last item and is disabled exactly when [updateLink] is not
    enabled; in the bubble menu it is the last item too but is never
    disabled, enabled or not.  In both, its state follows
    [updateLink.isActive()] and a click calls [activateLink] alone, without
    preventing the default. *)
Theorem link_item_of_both_menus cached inverse linkActivated :
  default false linkActivated = false →
  ∃ barItem items bubbleItem,
    last (MenuBar (actions remirror) inverse) = Some barItem
    ∧ child (BubbleMenu add five remirror bubblePositioner linkActivated) =
        bubbleContent items
    ∧ last items = Some bubbleItem
    ∧ button_disabled (MenuItem barItem) =
        negb (isEnabled (actions remirror WysiwygMenu.updateLink) ())
    ∧ button_disabled (MenuItem bubbleItem) = false
    ∧ button_state (MenuItem barItem) =
        getButtonState (isActive (actions remirror WysiwygMenu.updateLink) None) inverse
    ∧ button_state (MenuItem bubbleItem) =
        getButtonState (isActive (actions remirror WysiwygMenu.updateLink) None) (Some true)
    ∧ click cached (button_onClick (MenuItem barItem)) = [callActivateLink]
    ∧ click cached (button_onClick (MenuItem bubbleItem)) = [callActivateLink].
Proof.
  intros Hl. eexists _, _, _.
  split; [unfold MenuBar; apply last_snoc|].
  split; [by apply BubbleMenu_items|].
  split; [apply last_snoc|]. done.
Qed.

(** X11.  Everything the bubble menu renders is inverse: every item has
    one of the two inverse states, an inverse icon, horizontal padding and
    no index. *)
Theorem BubbleMenu_all_inverse linkActivated items item :
  child (BubbleMenu add five remirror bubblePositioner linkActivated) =
    bubbleContent items →
  item ∈ items →
  (button_state (MenuItem item) = inverse_
   ∨ button_state (MenuItem item) = active_inverse)
  ∧ icon_inverse (MenuItem item) = true
  ∧ button_withPadding (MenuItem item) = Some horizontal
  ∧ button_index (MenuItem item) = None.
Proof.
  intros Hc Hin.
  destruct (default false linkActivated) eqn:Hl.
  { unfold BubbleMenu in Hc. rewrite Hl in Hc. done. }
  rewrite (BubbleMenu_items _ Hl) in Hc. injection Hc as <-.
  apply list_elem_of_lookup_1 in Hin as [i Hi].
  assert (∀ a, getButtonState a (Some true) = inverse_
               ∨ getButtonState a (Some true) = active_inverse) as Hs.
  { intros []; simpl; eauto. }
  destruct i as [|[|[|[|i]]]]; simpl in Hi; try done;
    injection Hi as <-; simpl; (split; [apply Hs|done]).
Qed.


End BubbleMore.

Section LinkInputMore.
Import WysiwygMenu WysiwygBubble.
Context {NativeEvent Node : Type}.
Context (isEventKey : NativeEvent → string → bool).
Context (contains : Node → Node → bool).
Context (props : LinkInputProps).

Lemma dispatchAll_href current
    (events : list (LinkInputEvent NativeEvent Node)) s :
  href (dispatchAll isEventKey contains props current events s).1 =
    typed (href s) events.
Proof.
  revert s. induction events as [|event events IH]; intros s; [done|].
  cbn [dispatchAll].
  destruct (dispatch _ _ _ _ _ _) as [s' effects] eqn:Hd.
  specialize (IH s').
  destruct (dispatchAll _ _ _ _ _ _) as [s'' effects'].
  simpl in *. rewrite IH.
  destruct event; simpl in Hd; injection Hd as <- _; done.
Qed.

(** X13.  Whatever happened to a link input since it was mounted, the
    Enter key submits what was typed last: it prevents the default, calls
    [updateLink] with the value of the last change (the empty string when
    nothing was typed) and then [deactivateLink]; keys, submits and clicks
    in between do not alter the value. *)
Theorem enter_submits_last_typed current
    (events : list (LinkInputEvent NativeEvent Node)) nativeEvent :
  isEventKey nativeEvent "enter" = true →
  isEventKey nativeEvent "esc" = false →
  (dispatch isEventKey contains props current (keyPress nativeEvent)
     (dispatchAll isEventKey contains props current events initialState).1).2 =
    preventDefault :: updateLink props (typed "" events) ++ deactivateLink props.
Proof.
  intros Henter Hesc. simpl. unfold onKeyPress, submitLink.
  by rewrite Henter, Hesc, dispatchAll_href.
Qed.

(** X14.  Every event either leaves a link input alone or closes it.  A
    change only stores the value; a key that is neither Esc nor Enter, a
    mousedown inside the wrapper or before the wrapper is mounted, and a
    remove click while the item is not rendered do nothing at all; every
    other event ends with the call of [deactivateLink]; and none but a
    change alters the value held.  ([deactivateLink] is taken to do
    something.) *)
Theorem link_input_reacts_or_closes current
    (event : LinkInputEvent NativeEvent Node) s :
  deactivateLink props ≠ [] →
  let result := dispatch isEventKey contains props current event s in
  (result.2 = [] ∨ deactivateLink props `suffix_of` result.2)
  ∧ ((∀ value, event ≠ change value) → result.1 = s)
  ∧ (result.2 = [] ↔
       match event with
       | change _ => True
       | keyPress nativeEvent =>
           isEventKey nativeEvent "esc" = false
           ∧ isEventKey nativeEvent "enter" = false
       | submit => False
       | clickRemove => canRemove props () = false
       | mouseDown target =>
           match current with
           | None => True
           | Some wrapper => contains wrapper target = true
           end
       end).
Proof.
  intros Hd result. subst result. split; [|split].
  - destruct event as [v|ne| | |target]; simpl.
    + by left.
    + unfold onKeyPress, submitLink.
      destruct (isEventKey ne "esc"), (isEventKey ne "enter"); simpl.
      * right. exists (preventDefault :: deactivateLink props
                       ++ preventDefault :: updateLink props (href s)).
        simpl. by rewrite <-app_assoc.
      * right. rewrite app_nil_r. by exists [preventDefault].
      * right. exists (preventDefault :: updateLink props (href s)). done.
      * by left.
    + right. by exists (updateLink props (href s)).
    + destruct (canRemove props ()); simpl; [|by left].
      right. exists (preventDefault :: removeLink props). done.
    + unfold handleClick. destruct current as [w|]; [|by left].
      destruct (contains w target); [by left|]. right. done.
  - destruct event; simpl; try done. intros H. by destruct (H value).
  - destruct event as [v|ne| | |target]; simpl.
    + done.
    + unfold onKeyPress.
      destruct (isEventKey ne "esc"), (isEventKey ne "enter"); simpl;
        split; try done; intros [? ?]; done.
    + unfold submitLink. split; [|done].
      intros [_ ?]%app_eq_nil. done.
    + destruct (canRemove props ()); simpl; split; done.
    + unfold handleClick. destruct current as [w|]; [|done].
      destruct (contains w target); split; done.
Qed.

End LinkInputMore.

(** ** The menus on the sample editor state *)
Section MenuSamples.
Import WysiwygMenu WysiwygBubble.

Lemma BubbleMenu_reflects_predicates_witness :
  ∃ items item,
    child (BubbleMenu Z.add 5%Z SampleMenu.remirror SampleMenu.bubblePositioner
             None) = bubbleContent items
    ∧ items !! 0 = Some item
    ∧ button_disabled (MenuItem item) =
        negb (isEnabled (actions SampleMenu.remirror bold) ())
    ∧ button_state (MenuItem item) =
        (if isActive (actions SampleMenu.remirror bold) None
         then active_inverse else inverse_)
    ∧ icon (MenuItem item) = BoldIcon.
Proof.
  apply (BubbleMenu_reflects_predicates Z.add 5%Z SampleMenu.remirror
           SampleMenu.bubblePositioner None 0 bold BoldIcon None None);
    reflexivity.
Defined.

Lemma link_item_of_both_menus_witness :
  ∃ barItem items bubbleItem,
    last (MenuBar (actions SampleMenu.remirror) None) = Some barItem
    ∧ child (BubbleMenu Z.add 5%Z SampleMenu.remirror
               SampleMenu.bubblePositioner (Some false)) = bubbleContent items
    ∧ last items = Some bubbleItem
    ∧ button_disabled (MenuItem barItem) =
        negb (isEnabled (actions SampleMenu.remirror WysiwygMenu.updateLink) ())
    ∧ button_disabled (MenuItem bubbleItem) = false
    ∧ button_state (MenuItem barItem) =
        getButtonState
          (isActive (actions SampleMenu.remirror WysiwygMenu.updateLink) None)
          None
    ∧ button_state (MenuItem bubbleItem) =
        getButtonState
          (isActive (actions SampleMenu.remirror WysiwygMenu.updateLink) None)
          (Some true)
    ∧ click SampleMenu.cached (button_onClick (MenuItem barItem)) =
        [callActivateLink]
    ∧ click SampleMenu.cached (button_onClick (MenuItem bubbleItem)) =
        [callActivateLink].
Proof.
  apply (link_item_of_both_menus Z.add 5%Z SampleMenu.remirror
           SampleMenu.bubblePositioner SampleMenu.cached None (Some false)).
  reflexivity.
Defined.

Lemma BubbleMenu_all_inverse_witness :
  (button_state
     (MenuItem
        {| Icon := LinkIcon; state := inverse_; onClick := activateLink;
           inverse := Some true; withPadding := Some horizontal;
           disabled := None; subText := None; index := None |}) = inverse_
   ∨ button_state
       (MenuItem
          {| Icon := LinkIcon; state := inverse_; onClick := activateLink;
             inverse := Some true; withPadding := Some horizontal;
             disabled := None; subText := None; index := None |})
     = active_inverse)
  ∧ icon_inverse
      (MenuItem
         {| Icon := LinkIcon; state := inverse_; onClick := activateLink;
            inverse := Some true; withPadding := Some horizontal;
            disabled := None; subText := None; index := None |}) = true
  ∧ button_withPadding
      (MenuItem
         {| Icon := LinkIcon; state := inverse_; onClick := activateLink;
            inverse := Some true; withPadding := Some horizontal;
            disabled := None; subText := None; index := None |})
    = Some horizontal
  ∧ button_index
      (MenuItem
         {| Icon := LinkIcon; state := inverse_; onClick := activateLink;
            inverse := Some true; withPadding := Some horizontal;
            disabled := None; subText := None; index := None |}) = None.
Proof.
  eapply (BubbleMenu_all_inverse Z.add 5%Z SampleMenu.remirror
            SampleMenu.bubblePositioner None).
  - reflexivity.
  - do 3 apply list_elem_of_further. apply list_elem_of_here.
Defined.


Lemma enter_submits_last_typed_witness :
  (dispatch SampleMenu.isEventKey SampleMenu.contains SampleMenu.linkInputProps
     (Some 1) (keyPress 13)
     (dispatchAll SampleMenu.isEventKey SampleMenu.contains
        SampleMenu.linkInputProps (Some 1)
        [change "https://a"; keyPress 65; mouseDown 1; change "https://b"]
        initialState).1).2 =
  preventDefault
  :: updateLink SampleMenu.linkInputProps
       (typed ""
          [change "https://a"; keyPress 65; mouseDown 1; change "https://b"])
  ++ deactivateLink SampleMenu.linkInputProps.
Proof.
  apply (enter_submits_last_typed SampleMenu.isEventKey SampleMenu.contains
           SampleMenu.linkInputProps (Some 1)
           [change "https://a"; keyPress 65; mouseDown 1; change "https://b"]
           13);
    reflexivity.
Defined.

Lemma link_input_reacts_or_closes_witness :
  (dispatch SampleMenu.isEventKey SampleMenu.contains SampleMenu.linkInputProps
     (Some 1) (mouseDown 2) {| href := "https://a" |}).1 =
  {| href := "https://a" |}.
Proof.
  apply (link_input_reacts_or_closes SampleMenu.isEventKey SampleMenu.contains
           SampleMenu.linkInputProps (Some 1) (mouseDown 2)
           {| href := "https://a" |}).
  - discriminate.
  - intros value. discriminate.
Defined.

(** The sample session of the link input: two changes with a key and an
    inside click in between, then Enter. *)
Example link_input_session :
  dispatchAll SampleMenu.isEventKey SampleMenu.contains
    SampleMenu.linkInputProps (Some 1)
    [change "https://a"; keyPress 65; mouseDown 1; change "https://b";
     keyPress 13]
    initialState =
  ({| href := "https://b" |},
   [preventDefault;
    callAction WysiwygMenu.updateLink (hrefArgument "https://b");
    callDeactivateLink]).
Proof. reflexivity. Qed.

End MenuSamples.
